(** * Verification of the frame command pipeline and resource identity of lemon3d-rs

    Shallow embedding of
    - [src/src/resource/utils/location.rs] ([Location], [LocationAtom]),
    - [src/src/video/assets/texture.rs] ([TextureSetup::validate],
      [TextureFormat::components], [TextureFormat::size]),
    - [src/src/video/backends/frame.rs] ([Frame], [Frame::with_capacity],
      [Frame::clear], [Frame::dispatch]),
    - [src/modules/scene/src/scene.rs] ([Scene::create_pipeline],
      [Scene::delete_pipeline], [Scene::create_material],
      [Scene::delete_material]) over the resource registry,
    - [src/src/core/application.rs] ([Application::run]). *)

From Stdlib Require Import String Ascii List ZArith Lia Bool.
Import ListNotations.
Open Scope Z_scope.

(** Outcome of a Rust call: it returns a value or panics with a message. *)
Inductive Outcome (A : Type) : Type :=
| Returns (a : A)
| Panics (msg : string).
Arguments Returns {A} a.
Arguments Panics {A} msg.

(** ** Paths (std::path::Path on Unix)

    A [Path] is its byte string.  Rust compares two paths by their
    [components()], not by their bytes: a leading ['/'] gives [RootDir], a
    leading ["."] of a relative path gives [CurDir], and the remaining
    ['/']-separated pieces are kept except the empty ones and ["."]. *)
Module Path.

Definition t := string.

Inductive Component : Type :=
| RootDir
| CurDir
| ParentDir
| Normal (s : string).

Definition sep : ascii := "/"%char.
Definition dot : ascii := "."%char.

(** Splits a byte string at every separator. *)
Fixpoint split_sep (s : list ascii) (cur : list ascii) : list (list ascii) :=
  match s with
  | [] => [rev cur]
  | c :: rest =>
      if Ascii.eqb c sep then rev cur :: split_sep rest []
      else split_sep rest (c :: cur)
  end.

(** [parse_single_component]: empty pieces and ["."] yield nothing. *)
Definition parse_single_component (piece : list ascii) : option Component :=
  match piece with
  | [] => None
  | [c] => if Ascii.eqb c dot then None else Some (Normal (string_of_list_ascii piece))
  | [c1; c2] =>
      if Ascii.eqb c1 dot && Ascii.eqb c2 dot then Some ParentDir
      else Some (Normal (string_of_list_ascii piece))
  | _ => Some (Normal (string_of_list_ascii piece))
  end.

Fixpoint filter_pieces (ps : list (list ascii)) : list Component :=
  match ps with
  | [] => []
  | p :: rest =>
      match parse_single_component p with
      | Some c => c :: filter_pieces rest
      | None => filter_pieces rest
      end
  end.

(** [include_cur_dir]: the path is ["."] or starts with ["./"]. *)
Definition include_cur_dir (s : list ascii) : bool :=
  match s with
  | [c] => Ascii.eqb c dot
  | c1 :: c2 :: _ => Ascii.eqb c1 dot && Ascii.eqb c2 sep
  | [] => false
  end.

Definition components (p : t) : list Component :=
  let s := list_ascii_of_string p in
  match s with
  | c :: _ =>
      if Ascii.eqb c sep then RootDir :: filter_pieces (split_sep s [])
      else if include_cur_dir s then CurDir :: filter_pieces (split_sep s [])
      else filter_pieces (split_sep s [])
  | [] => []
  end.

Definition component_eqb (a b : Component) : bool :=
  match a, b with
  | RootDir, RootDir | CurDir, CurDir | ParentDir, ParentDir => true
  | Normal x, Normal y => String.eqb x y
  | _, _ => false
  end.

Fixpoint components_eqb (xs ys : list Component) : bool :=
  match xs, ys with
  | [], [] => true
  | x :: xs', y :: ys' => component_eqb x y && components_eqb xs' ys'
  | _, _ => false
  end.

(** [impl PartialEq for Path]: [self.components() == other.components()]. *)
Definition eq (p q : t) : bool := components_eqb (components p) (components q).

End Path.

(** ** Hashing

    What a [Hash] implementation feeds to a [Hasher]: a derived enum feeds its
    discriminant then its fields; a [Path] feeds its components. *)
Inductive HashInput : Type :=
| HDiscriminant (n : Z)
| HU8 (b : Byte.byte)
| HU64 (v : Z)
| HComponent (c : Path.Component).

(** ** Location (location.rs) *)
Module Location.

Inductive Signature : Type :=
| Unique
| Shared
| TokenShared (code : Byte.byte).

Definition signature_is_shared (s : Signature) : bool :=
  match s with
  | Unique => false
  | _ => true
  end.

(** Derived [PartialEq] of [Signature]. *)
Definition signature_eqb (a b : Signature) : bool :=
  match a, b with
  | Unique, Unique | Shared, Shared => true
  | TokenShared x, TokenShared y => Byte.eqb x y
  | _, _ => false
  end.

(** Derived [Hash] of [Signature]. *)
Definition signature_hash (s : Signature) : list HashInput :=
  match s with
  | Unique => [HDiscriminant 0]
  | Shared => [HDiscriminant 1]
  | TokenShared c => [HDiscriminant 2; HU8 c]
  end.

Record Location : Type := mkLocation {
  code : Signature;
  location : Path.t;
}.

Definition unique (p : Path.t) : Location := mkLocation Unique p.
Definition shared (p : Path.t) : Location := mkLocation Shared p.
Definition token (c : Byte.byte) (p : Path.t) : Location := mkLocation (TokenShared c) p.

Definition is_shared (l : Location) : bool := signature_is_shared (code l).

(** [impl PartialEq for Location]. *)
Definition eq (self other : Location) : Outcome bool :=
  if signature_is_shared (code self) then
    Returns (signature_eqb (code self) (code other)
             && Path.eq (location self) (location other))
  else Returns false.

Definition path_hash (p : Path.t) : list HashInput :=
  map HComponent (Path.components p).

(** [impl Hash for Location]. *)
Definition hash (self : Location) : Outcome (list HashInput) :=
  if signature_is_shared (code self) then
    Returns (signature_hash (code self) ++ path_hash (location self))
  else Panics "Trying to hash unique location.".

(** ** LocationAtom

    [HashValue<Path>] (crate utils) captures a path as the value a hasher
    computes from it; the hasher is a parameter of this section. *)
Section Atom.

Variable hasher : list HashInput -> Z.

Record LocationAtom : Type := mkAtom {
  acode : Signature;
  alocation : Z;
}.

(** [impl From<Location> for LocationAtom] and [Location::hash]. *)
Definition atom_of (v : Location) : LocationAtom :=
  mkAtom (code v) (hasher (path_hash (location v))).

(** [impl PartialEq for LocationAtom]. *)
Definition atom_eq (self other : LocationAtom) : Outcome bool :=
  if signature_is_shared (acode self) then
    Returns (signature_eqb (acode self) (acode other)
             && Z.eqb (alocation self) (alocation other))
  else Returns false.

(** [impl Hash for LocationAtom]. *)
Definition atom_hash (self : LocationAtom) : Outcome (list HashInput) :=
  if signature_is_shared (acode self) then
    Returns (signature_hash (acode self) ++ [HU64 (alocation self)])
  else Panics "Trying to hash unique location.".

End Atom.

(** [LocationAtom::is_shared]. *)
Definition atom_is_shared (a : LocationAtom) : bool := signature_is_shared (acode a).

End Location.

(** [Result<T, E>]. *)
Inductive Result (A E : Type) : Type :=
| Ok (a : A)
| Err (e : E).
Arguments Ok {A E} a.
Arguments Err {A E} e.

(** ** Textures (texture.rs) *)
Module Texture.

(** The variant of [video::errors::Error] raised by [validate]. *)
Inductive Error : Type :=
| CreateMutableSharedObject.

Inductive TextureHint : Type := Immutable | Stream | Dynamic.

Definition texture_hint_eqb (a b : TextureHint) : bool :=
  match a, b with
  | Immutable, Immutable | Stream, Stream | Dynamic, Dynamic => true
  | _, _ => false
  end.

Inductive TextureFilter : Type := Nearest | Linear.

Inductive TextureAddress : Type := Repeat | Mirror | Clamp | MirrorClamp.

Inductive TextureFormat : Type :=
| U8 | U8U8 | U8U8U8 | U8U8U8U8 | U5U6U5 | U4U4U4U4 | U5U5U5U1 | U10U10U10U2
| F16 | F16F16 | F16F16F16 | F16F16F16F16 | F32 | F32F32 | F32F32F32 | F32F32F32F32.

Record TextureParams : Type := mkTextureParams {
  format : TextureFormat;
  address : TextureAddress;
  filter : TextureFilter;
  hint : TextureHint;
  mipmap : bool;
  dimensions : Z * Z;
}.

Record TextureSetup : Type := mkTextureSetup {
  location : Location.Location;
  params : TextureParams;
  data : option (list Byte.byte);
}.

(** [TextureSetup::validate]: takes [&self], so it returns a verdict and
    changes nothing. *)
Definition validate (self : TextureSetup) : Result unit Error :=
  if Location.is_shared (location self) then
    if negb (texture_hint_eqb (hint (params self)) Immutable) then
      Err CreateMutableSharedObject
    else Ok tt
  else Ok tt.

(** [TextureFormat::components]. *)
Definition components (f : TextureFormat) : Z :=
  match f with
  | F32 | F16 | U8 => 1
  | U8U8 | F16F16 | F32F32 => 2
  | U5U6U5 | U8U8U8 | F16F16F16 | F32F32F32 => 3
  | U8U8U8U8 | U4U4U4U4 | U5U5U5U1 | U10U10U10U2 | F16F16F16F16 | F32F32F32F32 => 4
  end.

(** [TextureFormat::size]: bytes per pixel. *)
Definition size (f : TextureFormat) : Z :=
  match f with
  | U8 => 1
  | U8U8 | U5U6U5 | U4U4U4U4 | U5U5U5U1 | F16 => 2
  | U8U8U8 => 3
  | U8U8U8U8 | U10U10U10U2 | F16F16 | F32 => 4
  | F16F16F16 => 6
  | F16F16F16F16 | F32F32 => 8
  | F32F32F32 => 12
  | F32F32F32F32 => 16
  end.

(** The bit width of each component, as the variant's name spells it
    ([U5U6U5] is 5, 6 and 5 bits; [F16] is one 16-bit component). *)
Definition component_bits (f : TextureFormat) : list Z :=
  match f with
  | U8 => [8] | U8U8 => [8; 8] | U8U8U8 => [8; 8; 8] | U8U8U8U8 => [8; 8; 8; 8]
  | U5U6U5 => [5; 6; 5] | U4U4U4U4 => [4; 4; 4; 4] | U5U5U5U1 => [5; 5; 5; 1]
  | U10U10U10U2 => [10; 10; 10; 2]
  | F16 => [16] | F16F16 => [16; 16] | F16F16F16 => [16; 16; 16]
  | F16F16F16F16 => [16; 16; 16; 16]
  | F32 => [32] | F32F32 => [32; 32] | F32F32F32 => [32; 32; 32]
  | F32F32F32F32 => [32; 32; 32; 32]
  end.

End Texture.

(** ** Handles

    [impl_handle!] handles are a generation-checked slot index. *)
Record Handle : Type := mkHandle {
  index : nat;
  version : nat;
}.

Definition handle_eqb (a b : Handle) : bool :=
  Nat.eqb (index a) (index b) && Nat.eqb (version a) (version b).

(** ** Frame (frame.rs) *)
Module Frame.

(** [u32] arithmetic of the counters: wrapping, as in a release build. *)
Definition u32_wrap (z : Z) : Z := z mod 2 ^ 32.

(** *** DataBuffer

    Modelled from the spec: [DataBuffer] of crate utils (section 4.1).  An
    append-only byte store; the write cursor is the length of [bytes]; a
    [DataBufferPtr] is a byte offset and length; [as_slice] reads these bytes
    back; [clear] resets the cursor to zero. *)
Record DataBuffer : Type := mkDataBuffer { bytes : list Byte.byte }.

Record DataBufferPtr : Type := mkPtr { offset : nat; len : nat }.

Definition as_slice (b : DataBuffer) (p : DataBufferPtr) : list Byte.byte :=
  firstn (len p) (skipn (offset p) (bytes b)).

Definition buffer_clear (b : DataBuffer) : DataBuffer := mkDataBuffer [].

Section Frame.

(** Types that the frame only forwards to the backend. *)
Context {SurfaceParams ShaderParams TextureParams RenderTextureParams MeshParams
         TextureData MeshData SurfaceScissor SurfaceViewport MeshIndex : Type}.

(** [Aabb2<u32>] and [Vector2<u32>]. *)
Definition Aabb2 : Type := (Z * Z) * (Z * Z).
Definition Vector2 : Type := Z * Z.

Inductive Command : Type :=
| Bind (surface : Handle)
| Draw (shader mesh : Handle) (mesh_index : MeshIndex) (ptr : DataBufferPtr)
| UpdateScissor (scissor : SurfaceScissor)
| UpdateViewport (view : SurfaceViewport)
| CreateSurface (handle : Handle) (params : SurfaceParams)
| DeleteSurface (handle : Handle)
| CreateShader (handle : Handle) (params : ShaderParams) (vs fs : string)
| DeleteShader (handle : Handle)
| CreateTexture (handle : Handle) (params : TextureParams) (data : option TextureData)
| UpdateTexture (handle : Handle) (area : Aabb2) (ptr : DataBufferPtr)
| DeleteTexture (handle : Handle)
| CreateRenderTexture (handle : Handle) (params : RenderTextureParams)
| DeleteRenderTexture (handle : Handle)
| CreateMesh (handle : Handle) (params : MeshParams) (data : option MeshData)
| UpdateVertexBuffer (handle : Handle) (offset : nat) (ptr : DataBufferPtr)
| UpdateIndexBuffer (handle : Handle) (offset : nat) (ptr : DataBufferPtr)
| DeleteMesh (handle : Handle).

Record Frame : Type := mkFrame {
  cmds : list Command;
  bufs : DataBuffer;
}.

(** [Frame::clear]. *)
Definition clear (self : Frame) : Frame := mkFrame [] (buffer_clear (bufs self)).

(** *** The backend visitor

    One constructor per verb of the [Visitor] trait, with the arguments the
    verb receives (slices resolved from the arena as byte lists). *)
Inductive VisitorCall : Type :=
| VAdvance
| VFlush
| VBind (surface : Handle) (dimensions : Vector2)
| VDraw (shader mesh : Handle) (mesh_index : MeshIndex) (vars : list Byte.byte)
| VUpdateSurfaceScissor (scissor : SurfaceScissor)
| VUpdateSurfaceViewport (view : SurfaceViewport)
| VCreateSurface (handle : Handle) (params : SurfaceParams)
| VDeleteSurface (handle : Handle)
| VCreateShader (handle : Handle) (params : ShaderParams) (vs fs : string)
| VDeleteShader (handle : Handle)
| VCreateTexture (handle : Handle) (params : TextureParams) (data : option TextureData)
| VUpdateTexture (handle : Handle) (area : Aabb2) (data : list Byte.byte)
| VDeleteTexture (handle : Handle)
| VCreateRenderTexture (handle : Handle) (params : RenderTextureParams)
| VDeleteRenderTexture (handle : Handle)
| VCreateMesh (handle : Handle) (params : MeshParams) (data : option MeshData)
| VUpdateVertexBuffer (handle : Handle) (offset : nat) (data : list Byte.byte)
| VUpdateIndexBuffer (handle : Handle) (offset : nat) (data : list Byte.byte)
| VDeleteMesh (handle : Handle).

(** A visitor is any backend state [VS] with a reply to each verb: the new
    backend state and [Ok v] or [Err e]; [v] is the triangle count for
    [draw] and is ignored for the verbs returning [()]. *)
Context {Error VS : Type}.
Variable visit : VS -> VisitorCall -> VS * Result Z Error.

(** State threaded through [dispatch]: the frame ([&mut self]), the backend
    ([&mut Visitor]) and, for the statements, the verbs called so far. *)
Record DState : Type := mkDState {
  frame : Frame;
  vstate : VS;
  trace : list VisitorCall;
}.

Definition M (A : Type) : Type := DState -> DState * Result A Error.

Definition ret {A} (a : A) : M A := fun st => (st, Ok a).

(** [?]: an [Err] returns from [dispatch] at once. *)
Definition bind {A B} (m : M A) (k : A -> M B) : M B :=
  fun st =>
    match m st with
    | (st', Ok a) => k a st'
    | (st', Err e) => (st', Err e)
    end.

Notation "x <- m ;; k" := (bind m (fun x => k))
  (at level 61, m at next level, right associativity).

(** A call of a visitor verb. *)
Definition invoke (c : VisitorCall) : M Z :=
  fun st =>
    let '(vs', r) := visit (vstate st) c in
    (mkDState (frame st) vs' (trace st ++ [c]), r).

(** [self.cmds.drain(..)]: the vector is emptied when the drain starts. *)
Definition drain_cmds : M (list Command) :=
  fun st =>
    (mkDState (mkFrame [] (bufs (frame st))) (vstate st) (trace st),
     Ok (cmds (frame st))).

Definition get_bufs : M DataBuffer := fun st => (st, Ok (bufs (frame st))).

(** [self.cmds.clear()]. *)
Definition clear_cmds : M unit :=
  fun st =>
    (mkDState (mkFrame [] (bufs (frame st))) (vstate st) (trace st), Ok tt).

(** The body of the [for v in self.cmds.drain(..)] loop. *)
Definition step_command (bufs : DataBuffer) (dimensions : Vector2)
    (dc tris : Z) (v : Command) : M (Z * Z) :=
  match v with
  | Bind surface =>
      _ <- invoke (VBind surface dimensions) ;; ret (dc, tris)
  | Draw shader mesh mesh_index ptr =>
      let vars := as_slice bufs ptr in
      let dc := u32_wrap (dc + 1) in
      n <- invoke (VDraw shader mesh mesh_index vars) ;;
      ret (dc, u32_wrap (tris + n))
  | UpdateScissor scissor =>
      _ <- invoke (VUpdateSurfaceScissor scissor) ;; ret (dc, tris)
  | UpdateViewport view =>
      _ <- invoke (VUpdateSurfaceViewport view) ;; ret (dc, tris)
  | CreateSurface handle params =>
      _ <- invoke (VCreateSurface handle params) ;; ret (dc, tris)
  | DeleteSurface handle =>
      _ <- invoke (VDeleteSurface handle) ;; ret (dc, tris)
  | CreateShader handle params vs fs =>
      _ <- invoke (VCreateShader handle params vs fs) ;; ret (dc, tris)
  | DeleteShader handle =>
      _ <- invoke (VDeleteShader handle) ;; ret (dc, tris)
  | CreateTexture handle params data =>
      _ <- invoke (VCreateTexture handle params data) ;; ret (dc, tris)
  | UpdateTexture handle area ptr =>
      let data := as_slice bufs ptr in
      _ <- invoke (VUpdateTexture handle area data) ;; ret (dc, tris)
  | DeleteTexture handle =>
      _ <- invoke (VDeleteTexture handle) ;; ret (dc, tris)
  | CreateRenderTexture handle params =>
      _ <- invoke (VCreateRenderTexture handle params) ;; ret (dc, tris)
  | DeleteRenderTexture handle =>
      _ <- invoke (VDeleteRenderTexture handle) ;; ret (dc, tris)
  | CreateMesh handle params data =>
      _ <- invoke (VCreateMesh handle params data) ;; ret (dc, tris)
  | UpdateVertexBuffer handle offset ptr =>
      let data := as_slice bufs ptr in
      _ <- invoke (VUpdateVertexBuffer handle offset data) ;; ret (dc, tris)
  | UpdateIndexBuffer handle offset ptr =>
      let data := as_slice bufs ptr in
      _ <- invoke (VUpdateIndexBuffer handle offset data) ;; ret (dc, tris)
  | DeleteMesh handle =>
      _ <- invoke (VDeleteMesh handle) ;; ret (dc, tris)
  end.

Fixpoint run_loop (bufs : DataBuffer) (dimensions : Vector2)
    (dc tris : Z) (vs : list Command) : M (Z * Z) :=
  match vs with
  | [] => ret (dc, tris)
  | v :: rest =>
      p <- step_command bufs dimensions dc tris v ;;
      run_loop bufs dimensions (fst p) (snd p) rest
  end.

(** [Frame::dispatch]. *)
Definition dispatch (dimensions : Vector2) : M (Z * Z) :=
  _ <- invoke VAdvance ;;
  vs <- drain_cmds ;;
  bufs <- get_bufs ;;
  p <- run_loop bufs dimensions 0 0 vs ;;
  _ <- invoke VFlush ;;
  _ <- clear_cmds ;;
  ret p.

(** Running [dispatch] on a frame and a backend, from an empty trace. *)
Definition run_dispatch (f : Frame) (s : VS) (dimensions : Vector2)
    : DState * Result (Z * Z) Error :=
  dispatch dimensions (mkDState f s []).

(** *** Reference sequences for the statements *)

(** The verb that corresponds to each command, with its arena data. *)
Definition call_of_command (bufs : DataBuffer) (dimensions : Vector2)
    (v : Command) : VisitorCall :=
  match v with
  | Bind surface => VBind surface dimensions
  | Draw shader mesh mesh_index ptr => VDraw shader mesh mesh_index (as_slice bufs ptr)
  | UpdateScissor scissor => VUpdateSurfaceScissor scissor
  | UpdateViewport view => VUpdateSurfaceViewport view
  | CreateSurface handle params => VCreateSurface handle params
  | DeleteSurface handle => VDeleteSurface handle
  | CreateShader handle params vs fs => VCreateShader handle params vs fs
  | DeleteShader handle => VDeleteShader handle
  | CreateTexture handle params data => VCreateTexture handle params data
  | UpdateTexture handle area ptr => VUpdateTexture handle area (as_slice bufs ptr)
  | DeleteTexture handle => VDeleteTexture handle
  | CreateRenderTexture handle params => VCreateRenderTexture handle params
  | DeleteRenderTexture handle => VDeleteRenderTexture handle
  | CreateMesh handle params data => VCreateMesh handle params data
  | UpdateVertexBuffer handle offset ptr => VUpdateVertexBuffer handle offset (as_slice bufs ptr)
  | UpdateIndexBuffer handle offset ptr => VUpdateIndexBuffer handle offset (as_slice bufs ptr)
  | DeleteMesh handle => VDeleteMesh handle
  end.

(** [advance], one verb per command in order, then [flush]. *)
Definition expected_calls (f : Frame) (dimensions : Vector2) : list VisitorCall :=
  VAdvance :: map (call_of_command (bufs f) dimensions) (cmds f) ++ [VFlush].

(** The backend replies along a sequence of calls, each made in the state
    left by the previous ones. *)
Fixpoint replies (s : VS) (calls : list VisitorCall)
    : VS * list (VisitorCall * Result Z Error) :=
  match calls with
  | [] => (s, [])
  | c :: rest =>
      let '(s1, r) := visit s c in
      let '(s2, rs) := replies s1 rest in
      (s2, (c, r) :: rs)
  end.

Definition is_draw (v : Command) : bool :=
  match v with Draw _ _ _ _ => true | _ => false end.

Definition is_vdraw (c : VisitorCall) : bool :=
  match c with VDraw _ _ _ _ => true | _ => false end.

(** Sum of the values [draw] returned along a run. *)
Fixpoint draw_total (rs : list (VisitorCall * Result Z Error)) : Z :=
  match rs with
  | [] => 0
  | (c, Ok n) :: rest => (if is_vdraw c then n else 0) + draw_total rest
  | (_, Err _) :: rest => draw_total rest
  end.

Fixpoint count_draws (vs : list Command) : Z :=
  match vs with
  | [] => 0
  | v :: rest => (if is_draw v then 1 else 0) + count_draws rest
  end.

(** Calling the verbs of a sequence in turn and stopping at the first
    [Err]: the final backend state, the verbs called and the error. *)
Fixpoint run_calls (s : VS) (calls : list VisitorCall)
    : VS * list VisitorCall * option Error :=
  match calls with
  | [] => (s, [], None)
  | c :: rest =>
      match visit s c with
      | (s1, Err e) => (s1, [c], Some e)
      | (s1, Ok _) =>
          let '(s2, made, err) := run_calls s1 rest in (s2, c :: made, err)
      end
  end.

(** The backend state after a sequence of calls that all answer [Ok]. *)
Fixpoint run_ok (s : VS) (calls : list VisitorCall) : option VS :=
  match calls with
  | [] => Some s
  | c :: rest =>
      match visit s c with
      | (s1, Ok _) => run_ok s1 rest
      | (_, Err _) => None
      end
  end.

(** [Frame::with_capacity]: the capacities only reserve memory. *)
Definition with_capacity (capacity : nat) : Frame := mkFrame [] (mkDataBuffer []).

End Frame.

End Frame.

(** ** Resource registry and pipelines (scene.rs) *)
Module Registry.

Import Location.

(** Modelled from the spec: [Registery<T>] of crate resource (sections 3
    and 4.4).  A lookup map from [LocationAtom] to [Handle], filled only for
    shared locations, and one record per live handle: the value, its
    reference count and its key.  New handles take the next slot index. *)
Record Entry (T : Type) : Type := mkEntry {
  value : T;
  rc : nat;
  key : option LocationAtom;
}.
Arguments mkEntry {T} value rc key.
Arguments value {T} e.
Arguments rc {T} e.
Arguments key {T} e.

Record Registry (T : Type) : Type := mkRegistry {
  lookup_map : list (LocationAtom * Handle);
  records : list (Handle * Entry T);
  next_index : nat;
}.
Arguments mkRegistry {T} lookup_map records next_index.
Arguments lookup_map {T} r.
Arguments records {T} r.
Arguments next_index {T} r.

Section Registry.

Variable hasher : list HashInput -> Z.

Definition outcome_true (o : Outcome bool) : bool :=
  match o with Returns true => true | _ => false end.

Definition new {T} : Registry T := mkRegistry [] [] 0.

Fixpoint find_atom (a : LocationAtom) (m : list (LocationAtom * Handle)) : option Handle :=
  match m with
  | [] => None
  | (k, h) :: rest => if outcome_true (atom_eq k a) then Some h else find_atom a rest
  end.

Fixpoint find_entry {T} (h : Handle) (rs : list (Handle * Entry T)) : option (Entry T) :=
  match rs with
  | [] => None
  | (h', e) :: rest => if handle_eqb h' h then Some e else find_entry h rest
  end.

(** [lookup]: [None] for a unique location. *)
Definition lookup {T} (r : Registry T) (location : Location) : option Handle :=
  if is_shared location then find_atom (atom_of hasher location) (lookup_map r)
  else None.

Fixpoint bump_rc {T} (h : Handle) (rs : list (Handle * Entry T)) : list (Handle * Entry T) :=
  match rs with
  | [] => []
  | (h', e) :: rest =>
      if handle_eqb h' h then (h', mkEntry (value e) (S (rc e)) (key e)) :: rest
      else (h', e) :: bump_rc h rest
  end.

(** [inc_rc]: a no-op on an absent handle. *)
Definition inc_rc {T} (r : Registry T) (h : Handle) : Registry T :=
  mkRegistry (lookup_map r) (bump_rc h (records r)) (next_index r).

(** [create]: an existing shared match gets one more reference and the
    passed value is dropped; otherwise a new record is stored. *)
Definition create {T} (r : Registry T) (location : Location) (v : T) : Registry T * Handle :=
  match lookup r location with
  | Some h => (inc_rc r h, h)
  | None =>
      let h := mkHandle (next_index r) 1 in
      let atom := atom_of hasher location in
      if is_shared location then
        (mkRegistry ((atom, h) :: lookup_map r) ((h, mkEntry v 1 (Some atom)) :: records r)
                    (S (next_index r)), h)
      else
        (mkRegistry (lookup_map r) ((h, mkEntry v 1 None) :: records r) (S (next_index r)), h)
  end.

Definition get {T} (r : Registry T) (h : Handle) : option T :=
  option_map value (find_entry h (records r)).

Definition get_mut {T} (r : Registry T) (h : Handle) : option T := get r h.

Definition refcount {T} (r : Registry T) (h : Handle) : option nat :=
  option_map rc (find_entry h (records r)).

(** *** Scene pipelines

    [PipelineSetup] splits into its location, the shader setup and the
    links; the graphics system creates the shader, which may fail. *)
Context {ShaderSetup ShaderParams Links Error Video : Type}.
Variable shader_params : ShaderSetup -> ShaderParams.
Variable create_shader : Video -> ShaderSetup -> Video * Result Handle Error.

Record PipelineSetup : Type := mkPipelineSetup {
  setup_location : Location;
  setup_shader : ShaderSetup;
  setup_links : Links;
}.

Record PipelineParams : Type := mkPipelineParams {
  shader : Handle;
  pipeline_shader_params : ShaderParams;
  links : Links;
}.

Record Scene : Type := mkScene {
  video : Video;
  pipelines : Registry PipelineParams;
}.

Definition lookup_pipeline (self : Scene) (location : Location) : option Handle :=
  lookup (pipelines self) location.

(** [Scene::create_pipeline]. *)
Definition create_pipeline (self : Scene) (setup : PipelineSetup) : Scene * Result Handle Error :=
  match lookup_pipeline self (setup_location setup) with
  | Some handle => (mkScene (video self) (inc_rc (pipelines self) handle), Ok handle)
  | None =>
      let location := setup_location setup in
      let params := shader_params (setup_shader setup) in
      match create_shader (video self) (setup_shader setup) with
      | (video', Err e) => (mkScene video' (pipelines self), Err e)
      | (video', Ok shader) =>
          let '(pipelines', h) :=
            create (pipelines self) location
                   (mkPipelineParams shader params (setup_links setup)) in
          (mkScene video' pipelines', Ok h)
      end
  end.

(** Modelled from the spec: [dec_rc] (sections 3 and 4.4).  A no-op on an
    absent handle; the last reference removes the record and its lookup key,
    any other drops the count by one. *)
Definition dec_rc {T} (r : Registry T) (h : Handle) : Registry T :=
  match find_entry h (records r) with
  | None => r
  | Some e =>
      if Nat.leb (rc e) 1 then
        mkRegistry (filter (fun kh => negb (handle_eqb (snd kh) h)) (lookup_map r))
                   (filter (fun he => negb (handle_eqb (fst he) h)) (records r))
                   (next_index r)
      else
        mkRegistry (lookup_map r)
                   (map (fun he => if handle_eqb (fst he) h
                                   then (fst he, mkEntry (value (snd he)) (pred (rc (snd he))) (key (snd he)))
                                   else he) (records r))
                   (next_index r)
  end.

(** [Scene::delete_pipeline]. *)
Definition delete_pipeline (self : Scene) (handle : Handle) : Scene :=
  mkScene (video self) (dec_rc (pipelines self) handle).

(** *** Scene materials

    [create_material] reads [Scene::pipelines] and writes
    [Scene::materials]; both fields are passed explicitly.  The material
    record is built by [MaterialParams::new] of the render crate. *)
Context {Variables MaterialParams : Type}.
Variable material_new : Handle -> Variables -> ShaderParams -> MaterialParams.

Record MaterialSetup : Type := mkMaterialSetup {
  setup_pipeline : Handle;
  setup_variables : Variables;
}.

Inductive SceneError : Type :=
| PipelineHandleInvalid (h : Handle)
| MaterialHandleInvalid (h : Handle).

(** [Scene::create_material]. *)
Definition create_material (pipelines : Registry PipelineParams)
    (materials : Registry MaterialParams) (setup : MaterialSetup)
    : Registry MaterialParams * Result Handle SceneError :=
  match get pipelines (setup_pipeline setup) with
  | Some po =>
      let location := unique EmptyString in
      let material := material_new (setup_pipeline setup) (setup_variables setup)
                                   (pipeline_shader_params po) in
      let '(materials', h) := create materials location material in
      (materials', Ok h)
  | None => (materials, Err (PipelineHandleInvalid (setup_pipeline setup)))
  end.

(** [Scene::delete_material]. *)
Definition delete_material (materials : Registry MaterialParams) (handle : Handle)
    : Registry MaterialParams :=
  dec_rc materials handle.

End Registry.

End Registry.

(** ** Application (application.rs)

    The engine, window and input types live outside the modelled sources;
    they enter as section variables. *)
Module Application.

Section Run.

Context {InputEvent OtherApplicationEvent OtherEvent GraphicsError : Type}.

Inductive ApplicationEvent : Type :=
| Closed
| OtherApplication (v : OtherApplicationEvent).

Inductive Event : Type :=
| Application (v : ApplicationEvent)
| InputDevice (v : InputEvent)
| Other (v : OtherEvent).

(** What one iteration of the main loop does, in order. *)
Inductive Effect : Type :=
| InputFrame
| Process (v : InputEvent)
| DropApplication (v : OtherApplicationEvent)
| DropEvent (v : OtherEvent)
| EngineFrame
| GraphicsFrame.

(** What the world supplies to one iteration: the closure's answer, the
    events [poll_events] returns and the result of
    [Graphics::run_one_frame]. *)
Record Tick : Type := mkTick {
  closure_result : bool;
  polled : list Event;
  graphics_result : Result unit GraphicsError;
}.

(** How [run] left its loop: the closure answered [false], [break 'main] on
    [Closed], [unwrap] panicked on a graphics error, or the supplied ticks
    ran out (the model's horizon). *)
Inductive Exit : Type :=
| ClosureFalse
| WindowClosed
| GraphicsPanic (e : GraphicsError)
| TicksExhausted.

(** The [for event in self.window.poll_events()] loop; [true] when it left
    through [break 'main]. *)
Fixpoint poll_events (events : list Event) : list Effect * bool :=
  match events with
  | [] => ([], false)
  | Application Closed :: _ => ([], true)
  | Application (OtherApplication v) :: rest =>
      let '(effs, closed) := poll_events rest in (DropApplication v :: effs, closed)
  | InputDevice v :: rest =>
      let '(effs, closed) := poll_events rest in (Process v :: effs, closed)
  | Other v :: rest =>
      let '(effs, closed) := poll_events rest in (DropEvent v :: effs, closed)
  end.

(** [Application::run]'s [while] loop. *)
Fixpoint run (ticks : list Tick) : list Effect * Exit :=
  match ticks with
  | [] => ([], TicksExhausted)
  | t :: rest =>
      if closure_result t then
        let '(effs, closed) := poll_events (polled t) in
        if closed then (InputFrame :: effs, WindowClosed)
        else
          match graphics_result t with
          | Err e => (InputFrame :: effs ++ [EngineFrame; GraphicsFrame], GraphicsPanic e)
          | Ok _ =>
              let '(effs', exit) := run rest in
              (InputFrame :: effs ++ [EngineFrame; GraphicsFrame] ++ effs', exit)
          end
      else ([], ClosureFalse)
  end.

End Run.

End Application.

(** ** Concrete scenarios

    A frame over a three-byte arena, a backend whose state counts the calls
    it received and which answers [Err] to the call numbered [fail_at]
    (counting from 0) and [2^31] triangles to every [draw], and a registry
    hasher. *)
Module Scenarios.

Import Frame.

Definition UCommand : Type := @Command unit unit unit unit unit unit unit unit unit unit.
Definition UCall : Type := @VisitorCall unit unit unit unit unit unit unit unit unit unit.

Definition arena : DataBuffer := mkDataBuffer [Byte.x01; Byte.x02; Byte.x03].
Definition h0 : Handle := mkHandle 0 1.
Definition h1 : Handle := mkHandle 1 1.
Definition ptr0 : DataBufferPtr := mkPtr 0 2.
Definition dims0 : Vector2 := (640, 480).

(** Create, update and delete one texture. *)
Definition texture_cmds : list UCommand :=
  [CreateTexture h0 tt None; UpdateTexture h0 ((0, 0), (1, 1)) ptr0; DeleteTexture h0].
Definition texture_frame : Frame := mkFrame texture_cmds arena.

(** Two draws. *)
Definition draw_cmds : list UCommand := [Draw h0 h1 tt ptr0; Draw h0 h1 tt ptr0].
Definition draw_frame : Frame := mkFrame draw_cmds arena.

Definition counting_visitor (fail_at : nat) (n : nat) (c : UCall) : nat * Result Z string :=
  (S n, if Nat.eqb n fail_at then Err "backend failure"%string
        else Ok (if is_vdraw c then 2 ^ 31 else 0)).

Definition hasher0 (l : list HashInput) : Z := Z.of_nat (length l).

End Scenarios.

(** * Properties *)

(** ** Paths and locations *)

Lemma component_eqb_eq (a b : Path.Component) : Path.component_eqb a b = true <-> a = b.
Proof.
  destruct a, b; simpl; split; intro H; try discriminate; try reflexivity;
    try (apply String.eqb_eq in H; subst; reflexivity);
    try (inversion H; subst; apply String.eqb_refl).
Qed.

Lemma components_eqb_eq (xs ys : list Path.Component) :
  Path.components_eqb xs ys = true <-> xs = ys.
Proof.
  revert ys; induction xs as [|x xs IH]; intros [|y ys]; simpl;
    split; intro H; try discriminate; try reflexivity.
  - apply andb_true_iff in H as [H1 H2].
    apply component_eqb_eq in H1; apply IH in H2; subst; reflexivity.
  - inversion H; subst. apply andb_true_iff; split.
    + apply component_eqb_eq; reflexivity.
    + apply IH; reflexivity.
Qed.

Lemma path_eq_components (p q : Path.t) :
  Path.eq p q = true <-> Path.components p = Path.components q.
Proof. unfold Path.eq. apply components_eqb_eq. Qed.

Lemma path_eq_refl (p : Path.t) : Path.eq p p = true.
Proof. apply path_eq_components; reflexivity. Qed.

Lemma signature_eqb_refl (s : Location.Signature) : Location.signature_eqb s s = true.
Proof. destruct s; simpl; try reflexivity. apply Byte.byte_dec_lb; reflexivity. Qed.

Lemma signature_eqb_token (t1 t2 : Byte.byte) :
  Location.signature_eqb (Location.TokenShared t1) (Location.TokenShared t2) = true <-> t1 = t2.
Proof.
  simpl; split; [apply Byte.byte_dec_bl | apply Byte.byte_dec_lb].
Qed.

(** C4: an equality test whose left side is a [Location::unique] returns
    [false], whatever the right side; in particular two unique locations built
    from the same path, or one unique location compared with itself, are
    unequal. *)
Theorem unique_location_never_equal :
  (forall p q : Path.t,
      Location.eq (Location.unique p) (Location.unique q) = Returns false) /\
  (forall p : Path.t,
      let a := Location.unique p in Location.eq a a = Returns false) /\
  (forall (p : Path.t) (b : Location.Location),
      Location.eq (Location.unique p) b = Returns false).
Proof.
  repeat split; reflexivity.
Qed.

(** C5 (counterexample): two [Shared] locations can be equal without their
    paths being byte-equal: ["a/b"] and ["a/b/"] have the same components. *)
Lemma shared_eq_not_bytewise :
  Location.eq (Location.shared "a/b"%string) (Location.shared "a/b/"%string) = Returns true /\
  "a/b"%string <> "a/b/"%string.
Proof. split; [reflexivity | discriminate]. Qed.

(** C5 (amended): [Shared(p)] and [Shared(q)] are equal iff [p] and [q] are
    equal as paths (component-wise, so byte-equal paths are equal), and
    equal ones feed the same values to a hasher; [TokenShared] locations with
    different tokens are unequal whatever their paths.  Their [LocationAtom]s
    are equal iff the hash values of the paths are equal, so equal paths give
    equal atoms with equal hashes, and different tokens give unequal atoms. *)
Theorem shared_location_eq_hash_contract :
  (forall p q : Path.t,
      Location.eq (Location.shared p) (Location.shared q) = Returns (Path.eq p q)) /\
  (forall p q : Path.t, p = q -> Path.eq p q = true) /\
  (forall p q : Path.t, Path.eq p q = true ->
      exists h, Location.hash (Location.shared p) = Returns h /\
                Location.hash (Location.shared q) = Returns h) /\
  (forall (t1 t2 : Byte.byte) (p q : Path.t), t1 <> t2 ->
      Location.eq (Location.token t1 p) (Location.token t2 q) = Returns false) /\
  (forall (hasher : list HashInput -> Z) (p q : Path.t),
      Location.atom_eq (Location.atom_of hasher (Location.shared p))
                       (Location.atom_of hasher (Location.shared q))
      = Returns (Z.eqb (hasher (Location.path_hash p)) (hasher (Location.path_hash q)))) /\
  (forall (hasher : list HashInput -> Z) (p q : Path.t), Path.eq p q = true ->
      Location.atom_eq (Location.atom_of hasher (Location.shared p))
                       (Location.atom_of hasher (Location.shared q)) = Returns true /\
      exists h, Location.atom_hash (Location.atom_of hasher (Location.shared p)) = Returns h /\
                Location.atom_hash (Location.atom_of hasher (Location.shared q)) = Returns h) /\
  (forall (hasher : list HashInput -> Z) (t1 t2 : Byte.byte) (p q : Path.t), t1 <> t2 ->
      Location.atom_eq (Location.atom_of hasher (Location.token t1 p))
                       (Location.atom_of hasher (Location.token t2 q)) = Returns false).
Proof.
  split; [|split; [|split; [|split; [|split; [|split]]]]].
  - intros p q; reflexivity.
  - intros p q H; subst; apply path_eq_refl.
  - intros p q H. apply path_eq_components in H.
    unfold Location.hash, Location.path_hash; simpl; rewrite H; eauto.
  - intros t1 t2 p q Hne. unfold Location.eq; simpl.
    destruct (Byte.eqb t1 t2) eqn:E; [|reflexivity].
    apply Byte.byte_dec_bl in E; contradiction.
  - intros hasher p q; reflexivity.
  - intros hasher p q H. apply path_eq_components in H.
    unfold Location.atom_eq, Location.atom_hash, Location.atom_of, Location.path_hash;
      simpl; rewrite H, Z.eqb_refl; eauto.
  - intros hasher t1 t2 p q Hne. unfold Location.atom_eq; simpl.
    destruct (Byte.eqb t1 t2) eqn:E; [|reflexivity].
    apply Byte.byte_dec_bl in E; contradiction.
Qed.

(** C6: hashing a [Location] or a [LocationAtom] panics exactly when it is in
    the [Unique] variant; a [Shared] or [TokenShared] one always hashes. *)
Theorem hash_panics_iff_unique :
  (forall l : Location.Location,
      (exists msg, Location.hash l = Panics msg) <-> Location.code l = Location.Unique) /\
  (forall l : Location.Location,
      Location.code l <> Location.Unique -> exists h, Location.hash l = Returns h) /\
  (forall a : Location.LocationAtom,
      (exists msg, Location.atom_hash a = Panics msg) <-> Location.acode a = Location.Unique) /\
  (forall a : Location.LocationAtom,
      Location.acode a <> Location.Unique -> exists h, Location.atom_hash a = Returns h).
Proof.
  split; [|split; [|split]].
  - intros [c p]; unfold Location.hash; simpl; split.
    + intros [msg H]; destruct c; simpl in H; congruence.
    + intro H; subst; simpl; eauto.
  - intros [c p] H; unfold Location.hash; simpl in *.
    destruct c; simpl; eauto; contradiction.
  - intros [c v]; unfold Location.atom_hash; simpl; split.
    + intros [msg H]; destruct c; simpl in H; congruence.
    + intro H; subst; simpl; eauto.
  - intros [c v] H; unfold Location.atom_hash; simpl in *.
    destruct c; simpl; eauto; contradiction.
Qed.

(** C10 (counterexample): comparing unique locations does not abort; the
    comparison returns [false]. *)
Lemma unique_comparison_returns :
  Location.eq (Location.unique "1"%string) (Location.unique "1"%string) = Returns false /\
  ~ (exists msg, Location.eq (Location.unique "1"%string) (Location.unique "1"%string) = Panics msg).
Proof.
  split; [reflexivity|]. intros [msg H]; discriminate.
Qed.

(** C10 (amended): an equality test in which a [Unique] [Location] or
    [LocationAtom] takes part, on either side, never aborts: it returns
    [false]. *)
Theorem unique_comparison_is_false :
  (forall (p : Path.t) (b : Location.Location),
      Location.eq (Location.unique p) b = Returns false /\
      Location.eq b (Location.unique p) = Returns false) /\
  (forall (a b : Location.LocationAtom), Location.acode a = Location.Unique ->
      Location.atom_eq a b = Returns false /\ Location.atom_eq b a = Returns false).
Proof.
  split.
  - intros p [[| |t] q]; split; reflexivity.
  - intros [ca la] [[| |t] lb] H; simpl in H; subst; split; reflexivity.
Qed.

(** ** Texture setup validation *)

(** C7: [validate] returns [Err(CreateMutableSharedObject)] exactly when the
    location is shared and the hint is not [Immutable], and [Ok(())]
    otherwise.  It is a function of the setup alone ([&self]): it queues no
    command and changes no state. *)
Theorem validate_spec :
  forall s : Texture.TextureSetup,
    (Texture.validate s = Err Texture.CreateMutableSharedObject <->
       Location.is_shared (Texture.location s) = true /\
       Texture.hint (Texture.params s) <> Texture.Immutable) /\
    (Texture.validate s = Ok tt <->
       ~ (Location.is_shared (Texture.location s) = true /\
          Texture.hint (Texture.params s) <> Texture.Immutable)).
Proof.
  intros s; unfold Texture.validate.
  destruct (Location.is_shared (Texture.location s));
    destruct (Texture.hint (Texture.params s)); simpl;
    (split; split; [intro H | intro H | intro H | intro H]);
    try discriminate; try reflexivity; try (destruct H; congruence);
    try (split; [reflexivity | discriminate]);
    try (intros [H1 H2]; congruence).
  all: exfalso; apply H; split; [reflexivity | discriminate].
Qed.

(** ** Frame dispatch *)
Module FrameProofs.

Import Frame.

Section Dispatch.

Context {SurfaceParams ShaderParams TextureParams RenderTextureParams MeshParams
         TextureData MeshData SurfaceScissor SurfaceViewport MeshIndex Error VS : Type}.

Local Abbreviation Command := (@Command SurfaceParams ShaderParams TextureParams
  RenderTextureParams MeshParams TextureData MeshData SurfaceScissor SurfaceViewport MeshIndex).
Local Abbreviation VisitorCall := (@VisitorCall SurfaceParams ShaderParams TextureParams
  RenderTextureParams MeshParams TextureData MeshData SurfaceScissor SurfaceViewport MeshIndex).

Variable visit : VS -> VisitorCall -> VS * Result Z Error.

Definition err_matches {A} (err : option Error) (r : Result A Error) : Prop :=
  match err, r with
  | Some e, Err e' => e' = e
  | None, Ok _ => True
  | _, _ => False
  end.

(** One iteration of the loop calls the verb of its command. *)
Lemma step_command_call bufs dims dc tris (v : Command) st :
  step_command visit bufs dims dc tris v st =
  let '(s1, r) := visit (vstate st) (call_of_command bufs dims v) in
  (mkDState (frame st) s1 (trace st ++ [call_of_command bufs dims v]),
   match r with
   | Ok n => Ok (if is_draw v then (u32_wrap (dc + 1), u32_wrap (tris + n)) else (dc, tris))
   | Err e => Err e
   end).
Proof.
  destruct v; unfold step_command, bind, invoke, ret; simpl;
    destruct (visit (vstate st) _) as [s1 [n|e]]; reflexivity.
Qed.

Lemma call_of_command_is_vdraw bufs dims (v : Command) :
  is_vdraw (call_of_command bufs dims v) = is_draw v.
Proof. destruct v; reflexivity. Qed.

Lemma run_loop_calls bufs dims (vs : list Command) :
  forall dc tris st st' r s' made err,
    run_loop visit bufs dims dc tris vs st = (st', r) ->
    run_calls visit (vstate st) (map (call_of_command bufs dims) vs) = (s', made, err) ->
    frame st' = frame st /\ vstate st' = s' /\ trace st' = trace st ++ made /\
    err_matches err r.
Proof.
  induction vs as [|v vs IH]; intros dc tris st st' r s' made err Hrun Hcalls.
  - simpl in *. unfold ret in Hrun. inversion Hrun; inversion Hcalls; subst.
    rewrite app_nil_r; repeat split; reflexivity.
  - simpl in Hrun, Hcalls. unfold bind in Hrun.
    rewrite step_command_call in Hrun.
    destruct (visit (vstate st) (call_of_command bufs dims v)) as [s1 [n|e]] eqn:Ev.
    + destruct (run_calls visit s1 (map (call_of_command bufs dims) vs))
        as [[s2 made2] err2] eqn:Ec.
      inversion Hcalls; subst; clear Hcalls.
      edestruct IH as (Hf & Hs & Ht & He); [exact Hrun | simpl; exact Ec |].
      simpl in *. rewrite <- app_assoc in Ht. repeat split; assumption.
    + inversion Hrun; inversion Hcalls; subst. simpl. repeat split; reflexivity.
Qed.

Lemma run_calls_app s (xs ys : list VisitorCall) :
  run_calls visit s (xs ++ ys) =
  match run_calls visit s xs with
  | (s1, m1, Some e) => (s1, m1, Some e)
  | (s1, m1, None) => let '(s2, m2, e2) := run_calls visit s1 ys in (s2, m1 ++ m2, e2)
  end.
Proof.
  revert s; induction xs as [|x xs IH]; intro s; simpl.
  - destruct (run_calls visit s ys) as [[? ?] ?]; reflexivity.
  - destruct (visit s x) as [s1 [n|e]]; [|reflexivity].
    rewrite IH. destruct (run_calls visit s1 xs) as [[s2 m2] [e2|]]; [reflexivity|].
    destruct (run_calls visit s2 ys) as [[? ?] ?]; reflexivity.
Qed.

(** [dispatch] calls the verbs of [expected_calls] in turn and stops at the
    first [Err], which it returns. *)
Lemma dispatch_calls (f : Frame) s dims st' r s' made err :
  run_dispatch visit f s dims = (st', r) ->
  run_calls visit s (expected_calls f dims) = (s', made, err) ->
  vstate st' = s' /\ trace st' = made /\ err_matches err r.
Proof.
  unfold run_dispatch, dispatch, expected_calls.
  unfold bind at 1, invoke at 1; simpl.
  destruct (visit s VAdvance) as [s1 [n|e]] eqn:Ea; simpl.
  2:{ intros H1 H2; inversion H1; inversion H2; subst; simpl; repeat split; reflexivity. }
  unfold bind at 1, drain_cmds; simpl. unfold bind at 1, get_bufs; simpl.
  unfold bind at 1.
  destruct (run_loop visit (bufs f) dims 0 0 (cmds f)
              {| frame := {| cmds := []; bufs := bufs f |}; vstate := s1; trace := [VAdvance] |})
    as [st1 r1] eqn:El.
  rewrite run_calls_app.
  destruct (run_calls visit s1 (map (call_of_command (bufs f) dims) (cmds f)))
    as [[s2 m2] e2] eqn:Ec.
  destruct (run_loop_calls _ _ _ _ _ _ _ _ _ _ _ El Ec) as (Hf & Hs & Ht & He).
  simpl in Hs, Ht, Hf.
  destruct e2 as [e2|]; destruct r1 as [p|e1]; simpl in He; try contradiction.
  - intros H1 H2; inversion H1; inversion H2; subst; simpl; repeat split; assumption.
  - unfold bind at 1, invoke; simpl. rewrite Hs.
    destruct (visit s2 VFlush) as [s3 [n3|e3]] eqn:Ef; simpl.
    + unfold bind, clear_cmds, ret; simpl.
      intros H1 H2; inversion H1; inversion H2; subst; simpl.
      rewrite Ht; repeat split; reflexivity.
    + intros H1 H2; inversion H1; inversion H2; subst; simpl.
      rewrite Ht; repeat split; reflexivity.
Qed.

Lemma run_calls_prefix s (calls : list VisitorCall) :
  forall s' made err, run_calls visit s calls = (s', made, err) ->
    exists rest, made ++ rest = calls.
Proof.
  revert s; induction calls as [|c calls IH]; intros s s' made err H; simpl in H.
  - inversion H; subst. exists []; reflexivity.
  - destruct (visit s c) as [s1 [n|e]].
    + destruct (run_calls visit s1 calls) as [[s2 m2] e2] eqn:E.
      inversion H; subst. destruct (IH _ _ _ _ E) as [rest Hr].
      exists rest; simpl; rewrite Hr; reflexivity.
    + inversion H; subst. exists calls; reflexivity.
Qed.

Lemma run_calls_none s (calls : list VisitorCall) :
  forall s' made, run_calls visit s calls = (s', made, None) ->
    made = calls /\ run_ok visit s calls = Some s'.
Proof.
  revert s; induction calls as [|c calls IH]; intros s s' made H; simpl in H |- *.
  - inversion H; subst; split; reflexivity.
  - destruct (visit s c) as [s1 [n|e]]; [|discriminate].
    destruct (run_calls visit s1 calls) as [[s2 m2] e2] eqn:E.
    inversion H; subst. destruct (IH _ _ _ E) as [-> Hok]. split; [reflexivity | exact Hok].
Qed.

Lemma run_calls_some s (calls : list VisitorCall) :
  forall s' made e, run_calls visit s calls = (s', made, Some e) ->
    exists pre c rest s_pre,
      calls = pre ++ c :: rest /\ made = pre ++ [c] /\
      run_ok visit s pre = Some s_pre /\ visit s_pre c = (s', Err e).
Proof.
  revert s; induction calls as [|c calls IH]; intros s s' made e H; simpl in H.
  - discriminate.
  - destruct (visit s c) as [s1 [n|e1]] eqn:Ev.
    + destruct (run_calls visit s1 calls) as [[s2 m2] e2] eqn:E.
      inversion H; subst.
      destruct (IH _ _ _ _ E) as (pre & c' & rest & s_pre & Hc & Hm & Hok & Hv).
      exists (c :: pre), c', rest, s_pre. subst; simpl; rewrite Ev.
      repeat split; assumption.
    + inversion H; subst. exists [], c, calls, s. simpl.
      repeat split; assumption.
Qed.

Lemma run_ok_calls s (calls : list VisitorCall) :
  forall s', run_ok visit s calls = Some s' -> run_calls visit s calls = (s', calls, None).
Proof.
  revert s; induction calls as [|c calls IH]; intros s s' H; simpl in H |- *.
  - inversion H; reflexivity.
  - destruct (visit s c) as [s1 [n|e]]; [|discriminate].
    rewrite (IH _ _ H). reflexivity.
Qed.

Lemma run_calls_fail s (pre : list VisitorCall) c rest s_pre s1 e :
  run_ok visit s pre = Some s_pre -> visit s_pre c = (s1, Err e) ->
  run_calls visit s (pre ++ c :: rest) = (s1, pre ++ [c], Some e).
Proof.
  revert s; induction pre as [|x pre IH]; intros s Hok Hv; simpl in Hok |- *.
  - inversion Hok; subst. rewrite Hv. reflexivity.
  - destruct (visit s x) as [s2 [n|e2]]; [|discriminate].
    rewrite (IH _ Hok Hv). reflexivity.
Qed.

Lemma call_of_command_not_lifecycle bufs dims (v : Command) :
  call_of_command bufs dims v <> VAdvance /\ call_of_command bufs dims v <> VFlush.
Proof. destruct v; split; discriminate. Qed.

(** C1: [dispatch] calls [advance] first, then the verb of each command in
    the order of [cmds] (one verb per command; no command verb is [advance]
    or [flush]), then [flush]: the verbs it calls are always a prefix of this
    sequence, and all of it when no call fails: when every call of the
    sequence answers [Ok], [dispatch] makes all of them and returns [Ok]. *)
Theorem dispatch_calls_in_order (f : Frame) (s : VS) (dims : Vector2) :
  let st' := fst (run_dispatch visit f s dims) in
  let r := snd (run_dispatch visit f s dims) in
  expected_calls f dims
    = VAdvance :: map (call_of_command (bufs f) dims) (cmds f) ++ [VFlush] /\
  Forall (fun c => c <> VAdvance /\ c <> VFlush)
         (map (call_of_command (bufs f) dims) (cmds f)) /\
  (exists tl, trace st' = VAdvance :: tl) /\
  (exists rest, trace st' ++ rest = expected_calls f dims) /\
  (forall p, r = Ok p -> trace st' = expected_calls f dims) /\
  (forall s_end, run_ok visit s (expected_calls f dims) = Some s_end ->
     exists p, r = Ok p /\ trace st' = expected_calls f dims /\ vstate st' = s_end).
Proof.
  intros st' r.
  destruct (run_dispatch visit f s dims) as [st1 r1] eqn:Ed.
  destruct (run_calls visit s (expected_calls f dims)) as [[s' made] err] eqn:Ec.
  destruct (dispatch_calls _ _ _ _ _ _ _ _ Ed Ec) as (Hs & Ht & He).
  subst st' r; simpl.
  split; [reflexivity|]. split.
  { apply Forall_forall. intros c Hc. apply in_map_iff in Hc as (v & <- & _).
    apply call_of_command_not_lifecycle. }
  split; [|split; [|split]].
  - unfold expected_calls in Ec; simpl in Ec.
    destruct (visit s VAdvance) as [s1 [n|e]].
    + destruct (run_calls visit s1 _) as [[? ?] ?]; inversion Ec; subst; eauto.
    + inversion Ec; subst; eauto.
  - rewrite Ht. eapply run_calls_prefix; exact Ec.
  - intros p Hp; subst r1. destruct err as [e|]; simpl in He; [contradiction|].
    rewrite Ht. apply (run_calls_none _ _ _ _ Ec).
  - intros s_end Hok. pose proof (run_ok_calls s (expected_calls f dims) s_end Hok) as E2.
    rewrite Ec in E2. injection E2 as -> -> ->.
    destruct r1 as [p|e]; simpl in He; [|contradiction].
    exists p. split; [reflexivity|]. split; [exact Ht | exact Hs].
Qed.

(** Where an [Err] returned by [dispatch] comes from. *)
Lemma dispatch_error_origin (f : Frame) (s : VS) (dims : Vector2) st' e :
  run_dispatch visit f s dims = (st', Err e) ->
  exists pre c rest s_pre,
    expected_calls f dims = pre ++ c :: rest /\
    trace st' = pre ++ [c] /\
    run_ok visit s pre = Some s_pre /\
    visit s_pre c = (vstate st', Err e) /\
    (c <> VFlush -> ~ In VFlush (trace st')).
Proof.
  intros Ed.
  destruct (run_calls visit s (expected_calls f dims)) as [[s' made] err] eqn:Ec.
  destruct (dispatch_calls _ _ _ _ _ _ _ _ Ed Ec) as (Hs & Ht & He).
  destruct err as [e'|]; simpl in He; [|contradiction]. subst e'.
  destruct (run_calls_some _ _ _ _ _ Ec) as (pre & c & rest & s_pre & Hc & Hm & Hok & Hv).
  exists pre, c, rest, s_pre. rewrite Ht, Hs.
  repeat split; try assumption.
  intros Hne Hin.
  unfold expected_calls in Hc.
  set (X := VAdvance :: map (call_of_command (bufs f) dims) (cmds f)) in Hc.
  assert (HX : ~ In VFlush X).
  { subst X; simpl; intros [H|H]; [discriminate|].
    apply in_map_iff in H as (v & Hv' & _).
    apply (proj2 (call_of_command_not_lifecycle (bufs f) dims v)); exact Hv'. }
  destruct rest as [|x rest'] using rev_ind.
  - rewrite app_comm_cons in Hc.
    replace (VAdvance :: map (call_of_command (bufs f) dims) (cmds f) ++ [VFlush])
      with (X ++ [VFlush]) in Hc by reflexivity.
    apply app_inj_tail in Hc as [_ Hc]. congruence.
  - replace (VAdvance :: map (call_of_command (bufs f) dims) (cmds f) ++ [VFlush])
      with (X ++ [VFlush]) in Hc by reflexivity.
    replace (pre ++ c :: rest' ++ [x]) with ((pre ++ c :: rest') ++ [x]) in Hc
      by (rewrite <- app_assoc; reflexivity).
    apply app_inj_tail in Hc as [Hc _].
    apply HX. rewrite Hc. apply in_or_app. rewrite Hm in Hin.
    apply in_app_or in Hin as [Hin|[Hin|[]]].
    + left; exact Hin.
    + right; left; exact Hin.
Qed.

(** C2: when a call of [expected_calls] answers [Err(e)] after all calls
    before it answered [Ok], [dispatch] stops there and returns that [Err(e)],
    having made exactly the calls up to the failing one, the backend left in
    the state that call produced.  Conversely, when [dispatch] returns
    [Err(e)], the verbs it called are a prefix [pre ++ [c]] of
    [expected_calls]: every call of [pre] answered [Ok], [c] answered [Err(e)]
    and nothing after [c] was called ([flush] included, unless [c] is
    [flush]); the backend keeps the state left by all these calls, nothing is
    undone. *)
Theorem dispatch_error_stops (f : Frame) (s : VS) (dims : Vector2) :
  (forall pre c rest s_pre s1 e,
     expected_calls f dims = pre ++ c :: rest ->
     run_ok visit s pre = Some s_pre ->
     visit s_pre c = (s1, Err e) ->
     exists st', run_dispatch visit f s dims = (st', Err e) /\
                 trace st' = pre ++ [c] /\ vstate st' = s1) /\
  (forall st' e, run_dispatch visit f s dims = (st', Err e) ->
     exists pre c rest s_pre,
       expected_calls f dims = pre ++ c :: rest /\
       trace st' = pre ++ [c] /\
       run_ok visit s pre = Some s_pre /\
       visit s_pre c = (vstate st', Err e) /\
       (c <> VFlush -> ~ In VFlush (trace st'))).
Proof.
  split.
  - intros pre c rest s_pre s1 e Hx Hok Hv.
    destruct (run_dispatch visit f s dims) as [st1 r1] eqn:Ed.
    pose proof (run_calls_fail _ _ _ rest _ _ _ Hok Hv) as Ec. rewrite <- Hx in Ec.
    destruct (dispatch_calls _ _ _ _ _ _ _ _ Ed Ec) as (Hs & Ht & He).
    destruct r1 as [p|e']; simpl in He; [contradiction|]. subst e'.
    exists st1. split; [reflexivity|]. split; assumption.
  - intros st' e. apply dispatch_error_origin.
Qed.

(** [dispatch], step by step. *)
Lemma dispatch_unfold (f : Frame) s dims :
  run_dispatch visit f s dims =
  match visit s VAdvance with
  | (s1, Err e) => (mkDState f s1 [VAdvance], Err e)
  | (s1, Ok _) =>
      match run_loop visit (bufs f) dims 0 0 (cmds f)
                     (mkDState (mkFrame [] (bufs f)) s1 [VAdvance]) with
      | (st1, Err e) => (st1, Err e)
      | (st1, Ok p) =>
          match visit (vstate st1) VFlush with
          | (s3, Err e) => (mkDState (frame st1) s3 (trace st1 ++ [VFlush]), Err e)
          | (s3, Ok _) =>
              (mkDState (mkFrame [] (bufs (frame st1))) s3 (trace st1 ++ [VFlush]), Ok p)
          end
      end
  end.
Proof.
  unfold run_dispatch, dispatch, bind, invoke, drain_cmds, get_bufs, clear_cmds, ret; simpl.
  destruct (visit s VAdvance) as [s1 [n|e]]; [|reflexivity].
  destruct (run_loop _ _ _ _ _ _ _) as [st1 [p|e]]; [|reflexivity].
  destruct (visit (vstate st1) VFlush) as [s3 [n3|e3]]; reflexivity.
Qed.

Lemma replies_app s (xs ys : list VisitorCall) :
  replies visit s (xs ++ ys) =
  let '(s1, r1) := replies visit s xs in
  let '(s2, r2) := replies visit s1 ys in (s2, r1 ++ r2).
Proof.
  revert s; induction xs as [|x xs IH]; intro s; simpl.
  - destruct (replies visit s ys); reflexivity.
  - destruct (visit s x) as [s1 r]. rewrite IH.
    destruct (replies visit s1 xs) as [s2 r2].
    destruct (replies visit s2 ys); reflexivity.
Qed.

Lemma draw_total_app (xs ys : list (VisitorCall * Result Z Error)) :
  draw_total (xs ++ ys) = draw_total xs + draw_total ys.
Proof.
  induction xs as [|[c [n|e]] xs IH]; simpl; rewrite ?IH; lia.
Qed.

Lemma draw_total_not_draw s c :
  is_vdraw c = false -> draw_total (snd (replies visit s [c])) = 0.
Proof.
  intro H; simpl. destruct (visit s c) as [s1 [n|e]]; simpl; rewrite ?H; reflexivity.
Qed.

Lemma count_draws_nonneg (vs : list Command) : 0 <= count_draws vs.
Proof. induction vs as [|v vs IH]; simpl; [lia|]. destruct (is_draw v); lia. Qed.

Lemma u32_wrap_range z : 0 <= u32_wrap z < 2 ^ 32.
Proof. unfold u32_wrap. apply Z.mod_pos_bound. lia. Qed.

Lemma u32_wrap_add_l a b : u32_wrap (u32_wrap a + b) = u32_wrap (a + b).
Proof. unfold u32_wrap. apply Z.add_mod_idemp_l. lia. Qed.

Lemma run_loop_counters bufs dims (vs : list Command) :
  forall dc tris st st' dc' tris',
    0 <= dc < 2 ^ 32 -> 0 <= tris < 2 ^ 32 ->
    run_loop visit bufs dims dc tris vs st = (st', Ok (dc', tris')) ->
    dc' = u32_wrap (dc + count_draws vs) /\
    tris' = u32_wrap (tris + draw_total (snd (replies visit (vstate st)
                                               (map (call_of_command bufs dims) vs)))).
Proof.
  induction vs as [|v vs IH]; intros dc tris st st' dc' tris' Hdc Htr H.
  - simpl in H; unfold ret in H; inversion H; subst; simpl.
    unfold u32_wrap; rewrite !Z.add_0_r, !Z.mod_small by assumption; split; reflexivity.
  - simpl in H; unfold bind in H. rewrite step_command_call in H.
    simpl map; simpl replies.
    destruct (visit (vstate st) (call_of_command bufs dims v)) as [s1 [n|e]] eqn:Ev;
      [|discriminate].
    destruct (replies visit s1 (map (call_of_command bufs dims) vs)) as [s2 rs] eqn:Er.
    simpl. rewrite call_of_command_is_vdraw.
    destruct (is_draw v) eqn:Ed; simpl in H.
    + destruct (IH _ _ _ _ _ _ (u32_wrap_range _) (u32_wrap_range _) H) as [H1 H2].
      simpl in H2; rewrite Er in H2; simpl in H2.
      rewrite H1, H2, !u32_wrap_add_l, !Z.add_assoc; split; reflexivity.
    + destruct (IH _ _ _ _ _ _ Hdc Htr H) as [H1 H2].
      simpl in H2; rewrite Er in H2; simpl in H2.
      rewrite H1, H2, !Z.add_0_l; split; reflexivity.
Qed.

(** C8 (amended): when [dispatch] returns [Ok((dc, tris))], [dc] is the
    number of [Draw] commands and [tris] the sum of the values [draw]
    returned, both kept in [u32] (reduced modulo [2^32]); they are the exact
    count and sum whenever these are below [2^32].  Other commands add to
    neither. *)
Theorem dispatch_counts (f : Frame) s dims st' dc tris :
  run_dispatch visit f s dims = (st', Ok (dc, tris)) ->
  dc = u32_wrap (count_draws (cmds f)) /\
  tris = u32_wrap (draw_total (snd (replies visit s (trace st')))) /\
  (count_draws (cmds f) < 2 ^ 32 -> dc = count_draws (cmds f)) /\
  (0 <= draw_total (snd (replies visit s (trace st'))) < 2 ^ 32 ->
     tris = draw_total (snd (replies visit s (trace st')))).
Proof.
  intro H. rewrite dispatch_unfold in H.
  destruct (visit s VAdvance) as [s1 [n|e]] eqn:Ea; [|discriminate].
  destruct (run_loop visit (bufs f) dims 0 0 (cmds f)
              (mkDState (mkFrame [] (bufs f)) s1 [VAdvance])) as [st1 [p|e]] eqn:El;
    [|discriminate].
  destruct (visit (vstate st1) VFlush) as [s3 [n3|e3]] eqn:Ef; [|discriminate].
  inversion H; subst p st'; clear H.
  assert (Hr : 0 <= 0 < 2 ^ 32) by lia.
  destruct (run_loop_counters _ _ _ _ _ _ _ _ _ Hr Hr El) as [Hdc Htr].
  destruct (run_calls visit s1 (map (call_of_command (bufs f) dims) (cmds f)))
    as [[s2 made] err] eqn:Ec.
  destruct (run_loop_calls _ _ _ _ _ _ _ _ _ _ _ El Ec) as (_ & _ & Ht & He).
  destruct err as [e|]; simpl in He; [contradiction|].
  destruct (run_calls_none _ _ _ _ Ec) as [Hm _]. subst made.
  simpl in Hdc, Htr, Ht.
  assert (Htot : draw_total (snd (replies visit s (trace st1 ++ [VFlush])))
                 = draw_total (snd (replies visit s1 (map (call_of_command (bufs f) dims) (cmds f))))).
  { rewrite Ht. simpl. rewrite Ea.
    rewrite replies_app.
    destruct (replies visit s1 (map (call_of_command (bufs f) dims) (cmds f))) as [s4 rs] eqn:Er.
    pose proof (draw_total_not_draw s4 VFlush eq_refl) as Hf.
    destruct (replies visit s4 [VFlush]) as [s5 rs2] eqn:Er2. simpl in Hf |- *.
    rewrite draw_total_app, Hf. lia. }
  simpl trace. rewrite Htot.
  rewrite ?Z.add_0_l in Hdc, Htr.
  pose proof (count_draws_nonneg (cmds f)).
  split; [exact Hdc|]. split; [exact Htr|]. split.
  - intro Hlt. rewrite Hdc. unfold u32_wrap. apply Z.mod_small. lia.
  - intro Hlt. rewrite Htr. unfold u32_wrap. apply Z.mod_small. lia.
Qed.

(** C9 (amended): [dispatch] never changes the scratch arena.  When
    [advance] answers [Ok], the command list is empty afterwards, whether
    [dispatch] then succeeds or fails; when [advance] answers [Err],
    [dispatch] returns that error and the frame is left as it was, commands
    included.  [clear] empties both the command
    list and the arena. *)
Theorem dispatch_frame_effect (f : Frame) s dims :
  let st' := fst (run_dispatch visit f s dims) in
  bufs (frame st') = bufs f /\
  (forall s1 n, visit s VAdvance = (s1, Ok n) -> cmds (frame st') = []) /\
  (forall s1 e, visit s VAdvance = (s1, Err e) ->
     frame st' = f /\ snd (run_dispatch visit f s dims) = Err e) /\
  cmds (clear f) = [] /\ bytes (bufs (clear f)) = [].
Proof.
  intro st'. subst st'. rewrite dispatch_unfold.
  split; [|split; [|split; [|split]]]; try reflexivity.
  - destruct (visit s VAdvance) as [s1 [n|e]]; [|reflexivity].
    destruct (run_loop visit (bufs f) dims 0 0 (cmds f)
                (mkDState (mkFrame [] (bufs f)) s1 [VAdvance])) as [st1 r1] eqn:El.
    destruct (run_calls visit s1 (map (call_of_command (bufs f) dims) (cmds f)))
      as [[s2 made] err] eqn:Ec.
    destruct (run_loop_calls _ _ _ _ _ _ _ _ _ _ _ El Ec) as (Hf & _).
    simpl in Hf.
    destruct r1 as [p|e]; [|simpl; rewrite Hf; reflexivity].
    destruct (visit (vstate st1) VFlush) as [s3 [n3|e3]]; simpl; rewrite Hf; reflexivity.
  - intros s1 n Ea. rewrite Ea.
    destruct (run_loop visit (bufs f) dims 0 0 (cmds f)
                (mkDState (mkFrame [] (bufs f)) s1 [VAdvance])) as [st1 r1] eqn:El.
    destruct (run_calls visit s1 (map (call_of_command (bufs f) dims) (cmds f)))
      as [[s2 made] err] eqn:Ec.
    destruct (run_loop_calls _ _ _ _ _ _ _ _ _ _ _ El Ec) as (Hf & _).
    simpl in Hf.
    destruct r1 as [p|e]; [|simpl; rewrite Hf; reflexivity].
    destruct (visit (vstate st1) VFlush) as [s3 [n3|e3]]; simpl; [reflexivity|].
    rewrite Hf; reflexivity.
  - intros s1 e Ea. rewrite Ea. split; reflexivity.
Qed.

End Dispatch.

End FrameProofs.

(** ** Registry and pipelines *)
Module RegistryProofs.

Import Location Registry.

Section Proofs.

Variable hasher : list HashInput -> Z.

Lemma atom_eq_refl_shared (a : LocationAtom) :
  signature_is_shared (acode a) = true -> outcome_true (atom_eq a a) = true.
Proof.
  intro H. unfold atom_eq. rewrite H. rewrite signature_eqb_refl, Z.eqb_refl. reflexivity.
Qed.

Lemma handle_eqb_refl (h : Handle) : handle_eqb h h = true.
Proof. unfold handle_eqb. rewrite !Nat.eqb_refl. reflexivity. Qed.

Lemma find_entry_bump {T} (h : Handle) (rs : list (Handle * Entry T)) :
  find_entry h (bump_rc h rs) =
  option_map (fun e => mkEntry (value e) (S (rc e)) (key e)) (find_entry h rs).
Proof.
  induction rs as [|[h' e] rs IH]; simpl; [reflexivity|].
  destruct (handle_eqb h' h) eqn:E; simpl; rewrite ?E; [reflexivity | exact IH].
Qed.

Lemma refcount_inc_rc {T} (r : Registry T) (h : Handle) :
  refcount (inc_rc r h) h = option_map S (refcount r h).
Proof.
  unfold refcount, inc_rc; simpl. rewrite find_entry_bump.
  destruct (find_entry h (records r)); reflexivity.
Qed.

Lemma lookup_inc_rc {T} (r : Registry T) (h : Handle) (l : Location) :
  lookup hasher (inc_rc r h) l = lookup hasher r l.
Proof. reflexivity. Qed.

(** Two [create] calls with one shared path. *)
Lemma create_shared_twice {T : Type} (r : Registry T) (p : Path.t) (v1 v2 : T) :
  let '(r1, h1) := create hasher r (shared p) v1 in
  let '(r2, h2) := create hasher r1 (shared p) v2 in
  h1 = h2 /\
  (lookup hasher r (shared p) = None ->
     get_mut r2 h2 = Some v1 /\ refcount r2 h2 = Some 2%nat) /\
  (forall h0, lookup hasher r (shared p) = Some h0 ->
     h2 = h0 /\ get_mut r2 h2 = get_mut r h0 /\
     refcount r2 h2 = option_map (fun n => S (S n)) (refcount r h0)).
Proof.
  unfold create at 1.
  destruct (lookup hasher r (shared p)) as [h0|] eqn:El.
  - unfold create. rewrite lookup_inc_rc, El.
    split; [reflexivity|]. split; [discriminate|].
    intros h1 Hh; injection Hh as <-. split; [reflexivity|]. split.
    + unfold get_mut, get, inc_rc; simpl. rewrite !find_entry_bump.
      destruct (find_entry h0 (records r)); reflexivity.
    + rewrite !refcount_inc_rc. destruct (refcount r h0); reflexivity.
  - simpl.
    set (a := atom_of hasher (shared p)).
    set (h := mkHandle (next_index r) 1).
    unfold create, lookup; simpl.
    rewrite Z.eqb_refl; simpl.
    split; [reflexivity|]. split; [|intros h1 Hh; discriminate]. intros _.
    unfold get_mut, get, refcount, inc_rc; simpl.
    rewrite handle_eqb_refl; simpl; rewrite handle_eqb_refl. split; reflexivity.
Qed.

Context {ShaderSetup ShaderParams Links Error Video : Type}.
Variable shader_params : ShaderSetup -> ShaderParams.
Variable create_shader : Video -> ShaderSetup -> Video * Result Handle Error.

Lemma create_pipeline_hit
    (scene : Scene (ShaderParams := ShaderParams) (Links := Links) (Video := Video))
    (setup : PipelineSetup (ShaderSetup := ShaderSetup) (Links := Links)) (h : Handle) :
  lookup_pipeline hasher scene (setup_location setup) = Some h ->
  create_pipeline hasher shader_params create_shader scene setup
    = (mkScene (video scene) (inc_rc (pipelines scene) h), Ok h) /\
  refcount (inc_rc (pipelines scene) h) h = option_map S (refcount (pipelines scene) h).
Proof.
  intro H. unfold create_pipeline. rewrite H. split; [reflexivity|].
  apply refcount_inc_rc.
Qed.

(** C3 (amended): two [create] calls with the same shared path return the
    same handle; if the registry had no record for the path before, the
    second call raises the first record's count to 2 and [get_mut] yields the
    first value, not the second; if the path already had a match [h0], both
    calls return [h0], add one reference each to it and keep its value.  [Scene::create_pipeline] for a location
    that already has a match returns that handle and adds one reference to
    it, without creating a shader. *)
Theorem shared_location_dedup :
  (forall (T : Type) (r : Registry T) (p : Path.t) (v1 v2 : T),
     let '(r1, h1) := create hasher r (shared p) v1 in
     let '(r2, h2) := create hasher r1 (shared p) v2 in
     h1 = h2 /\
     (lookup hasher r (shared p) = None ->
        get_mut r2 h2 = Some v1 /\ refcount r2 h2 = Some 2%nat) /\
     (forall h0, lookup hasher r (shared p) = Some h0 ->
        h2 = h0 /\ get_mut r2 h2 = get_mut r h0 /\
        refcount r2 h2 = option_map (fun n => S (S n)) (refcount r h0))) /\
  (forall (scene : Scene (ShaderParams := ShaderParams) (Links := Links) (Video := Video))
          (setup : PipelineSetup (ShaderSetup := ShaderSetup) (Links := Links)) (h : Handle),
     lookup_pipeline hasher scene (setup_location setup) = Some h ->
     create_pipeline hasher shader_params create_shader scene setup
       = (mkScene (video scene) (inc_rc (pipelines scene) h), Ok h) /\
     refcount (inc_rc (pipelines scene) h) h = option_map S (refcount (pipelines scene) h)).
Proof.
  split.
  - intros T r p v1 v2. apply create_shared_twice.
  - intros scene setup h. apply create_pipeline_hit.
Qed.

End Proofs.

End RegistryProofs.

(** ** Concrete instances *)
Module Checks.

Import Frame Scenarios.

(** C1 at a concrete input: the texture frame against a backend that never
    fails; its five calls all answer [Ok]. *)
Lemma dispatch_calls_in_order_witness :
  snd (run_dispatch (counting_visitor 100) texture_frame 0%nat dims0) = Ok (0, 0) /\
  trace (fst (run_dispatch (counting_visitor 100) texture_frame 0%nat dims0))
  = expected_calls texture_frame dims0 /\
  exists p,
    snd (run_dispatch (counting_visitor 100) texture_frame 0%nat dims0) = Ok p /\
    trace (fst (run_dispatch (counting_visitor 100) texture_frame 0%nat dims0))
    = expected_calls texture_frame dims0 /\
    vstate (fst (run_dispatch (counting_visitor 100) texture_frame 0%nat dims0)) = 5%nat.
Proof.
  pose proof (FrameProofs.dispatch_calls_in_order (counting_visitor 100) texture_frame 0%nat dims0)
    as H.
  cbv zeta in H. destruct H as (_ & _ & _ & _ & H & H').
  split; [reflexivity|]. split; [apply (H (0, 0)); reflexivity|].
  apply H'. vm_compute. reflexivity.
Defined.

(** C2 at a concrete input: [advance] and [CreateTexture] answer [Ok],
    [UpdateTexture], the third call, fails. *)
Lemma dispatch_error_stops_witness :
  (exists st',
     run_dispatch (counting_visitor 2) texture_frame 0%nat dims0
       = (st', Err "backend failure"%string) /\
     trace st' = firstn 2 (expected_calls texture_frame dims0)
                 ++ [nth 2 (expected_calls texture_frame dims0) VFlush] /\
     vstate st' = 3%nat) /\
  exists pre c rest s_pre,
    expected_calls texture_frame dims0 = pre ++ c :: rest /\
    trace (fst (run_dispatch (counting_visitor 2) texture_frame 0%nat dims0)) = pre ++ [c] /\
    run_ok (counting_visitor 2) 0%nat pre = Some s_pre /\
    counting_visitor 2 s_pre c
    = (vstate (fst (run_dispatch (counting_visitor 2) texture_frame 0%nat dims0)),
       Err "backend failure"%string) /\
    (c <> VFlush ->
     ~ In VFlush (trace (fst (run_dispatch (counting_visitor 2) texture_frame 0%nat dims0)))).
Proof.
  destruct (FrameProofs.dispatch_error_stops (counting_visitor 2) texture_frame 0%nat dims0)
    as [H1 H2].
  split.
  - apply (H1 (firstn 2 (expected_calls texture_frame dims0))
              (nth 2 (expected_calls texture_frame dims0) VFlush)
              (skipn 3 (expected_calls texture_frame dims0)) 2%nat 3%nat).
    + vm_compute. reflexivity.
    + vm_compute. reflexivity.
    + vm_compute. reflexivity.
  - apply H2. reflexivity.
Defined.

(** C8 (counterexample): two draws of [2^31] triangles each; the sum is
    [2^32] but the [u32] counter returned is [0]. *)
Lemma dispatch_triangles_wrap :
  snd (run_dispatch (counting_visitor 100) draw_frame 0%nat dims0) = Ok (2, 0) /\
  draw_total (snd (replies (counting_visitor 100) 0%nat
                     (trace (fst (run_dispatch (counting_visitor 100) draw_frame 0%nat dims0)))))
  = 2 ^ 32.
Proof. split; vm_compute; reflexivity. Qed.

(** C8 at a concrete input. *)
Lemma dispatch_counts_witness :
  run_dispatch (counting_visitor 100) draw_frame 0%nat dims0
  = (fst (run_dispatch (counting_visitor 100) draw_frame 0%nat dims0), Ok (2, 0)) /\
  2 = u32_wrap (count_draws (cmds draw_frame)) /\
  count_draws (cmds draw_frame) < 2 ^ 32.
Proof.
  assert (H : run_dispatch (counting_visitor 100) draw_frame 0%nat dims0
              = (fst (run_dispatch (counting_visitor 100) draw_frame 0%nat dims0), Ok (2, 0)))
    by reflexivity.
  split; [exact H|].
  destruct (FrameProofs.dispatch_counts _ _ _ _ _ _ _ H) as (Hdc & _ & Hexact & _).
  split; [exact Hdc | vm_compute; reflexivity].
Defined.

(** C9 (counterexample): when [advance] fails, the commands stay queued. *)
Lemma advance_failure_keeps_cmds :
  snd (run_dispatch (counting_visitor 0) texture_frame 0%nat dims0)
    = Err "backend failure"%string /\
  cmds (frame (fst (run_dispatch (counting_visitor 0) texture_frame 0%nat dims0)))
    = texture_cmds /\
  texture_cmds <> [].
Proof. split; [reflexivity | split; [reflexivity | discriminate]]. Qed.

(** C9 at concrete inputs: [advance] succeeds, then fails. *)
Lemma dispatch_frame_effect_witness :
  cmds (frame (fst (run_dispatch (counting_visitor 2) texture_frame 0%nat dims0))) = [] /\
  frame (fst (run_dispatch (counting_visitor 0) texture_frame 0%nat dims0)) = texture_frame /\
  snd (run_dispatch (counting_visitor 0) texture_frame 0%nat dims0)
    = Err "backend failure"%string.
Proof.
  pose proof (FrameProofs.dispatch_frame_effect (counting_visitor 2) texture_frame 0%nat dims0)
    as H1.
  pose proof (FrameProofs.dispatch_frame_effect (counting_visitor 0) texture_frame 0%nat dims0)
    as H2.
  cbv zeta in H1, H2.
  destruct H1 as (_ & H1 & _). destruct H2 as (_ & _ & H2 & _).
  split.
  - apply (H1 1%nat 0). reflexivity.
  - apply (H2 1%nat "backend failure"%string). reflexivity.
Defined.

(** C3 (counterexample): the registry already holds the shared path with
    value [0]; two more [create] calls leave value [0] with three
    references, so [get_mut] does not yield the first of these values. *)
Lemma create_on_registered_path :
  let r0 := fst (Registry.create hasher0 Registry.new (Location.shared "p"%string) 0%nat) in
  let '(r1, h1) := Registry.create hasher0 r0 (Location.shared "p"%string) 1%nat in
  let '(r2, h2) := Registry.create hasher0 r1 (Location.shared "p"%string) 2%nat in
  Registry.get_mut r2 h2 = Some 0%nat /\ Registry.get_mut r2 h2 <> Some 1%nat /\
  Registry.refcount r2 h2 = Some 3%nat.
Proof. vm_compute. split; [reflexivity | split; [discriminate | reflexivity]]. Qed.

Definition pipeline_scene : Registry.Scene (ShaderParams := unit) (Links := unit) (Video := unit) :=
  Registry.mkScene tt
    (fst (Registry.create hasher0 Registry.new (Location.shared "p"%string)
            (Registry.mkPipelineParams h0 tt tt))).

Definition pipeline_setup : Registry.PipelineSetup (ShaderSetup := unit) (Links := unit) :=
  Registry.mkPipelineSetup (Location.shared "p"%string) tt tt.

(** The shared path ["p"] registered with value [0] under [h0]. *)
Definition registry_p0 : Registry.Registry nat :=
  fst (Registry.create hasher0 Registry.new (Location.shared "p"%string) 0%nat).

(** C3 at concrete inputs: a fresh registry, a registry that already holds
    the path, and a scene whose pipeline registry already holds the
    location. *)
Lemma shared_location_dedup_witness :
  (let '(r1, h1) := Registry.create hasher0 Registry.new (Location.shared "p"%string) 1%nat in
   let '(r2, h2) := Registry.create hasher0 r1 (Location.shared "p"%string) 2%nat in
   Registry.get_mut r2 h2 = Some 1%nat /\ Registry.refcount r2 h2 = Some 2%nat) /\
  (let '(r1, h1) := Registry.create hasher0 registry_p0 (Location.shared "p"%string) 1%nat in
   let '(r2, h2) := Registry.create hasher0 r1 (Location.shared "p"%string) 2%nat in
   h2 = h0 /\ Registry.get_mut r2 h2 = Some 0%nat /\ Registry.refcount r2 h2 = Some 3%nat) /\
  Registry.create_pipeline hasher0 (fun _ : unit => tt) (fun v _ => (v, @Ok Handle unit h1))
    pipeline_scene pipeline_setup
  = (Registry.mkScene tt (Registry.inc_rc (Registry.pipelines pipeline_scene) h0), Ok h0).
Proof.
  destruct (RegistryProofs.shared_location_dedup hasher0 (Links := unit) (Video := unit) (fun _ : unit => tt)
              (fun v _ => (v, @Ok Handle unit h1))) as [H1 H2].
  split; [|split].
  - specialize (H1 nat Registry.new "p"%string 1%nat 2%nat).
    vm_compute in H1 |- *. apply (proj1 (proj2 H1)). reflexivity.
  - exact (proj2 (proj2 (H1 nat registry_p0 "p"%string 1%nat 2%nat)) h0 eq_refl).
  - apply (H2 pipeline_scene pipeline_setup h0). reflexivity.
Defined.

(** C5 at concrete inputs. *)
Lemma shared_location_eq_hash_contract_witness :
  Path.eq "a/b"%string "a/b"%string = true /\
  (exists h, Location.hash (Location.shared "a/b"%string) = Returns h /\
             Location.hash (Location.shared "a/b/"%string) = Returns h) /\
  Location.eq (Location.token Byte.x00 "1"%string) (Location.token Byte.x01 "1"%string)
    = Returns false /\
  Location.atom_eq (Location.atom_of hasher0 (Location.token Byte.x00 "1"%string))
                   (Location.atom_of hasher0 (Location.token Byte.x01 "1"%string))
    = Returns false.
Proof.
  destruct shared_location_eq_hash_contract as (_ & Hrefl & Hhash & Htok & _ & _ & Hatok).
  split; [apply Hrefl; reflexivity|].
  split; [apply Hhash; reflexivity|].
  split; [apply Htok; discriminate|].
  apply Hatok; discriminate.
Defined.

(** C6 at concrete inputs. *)
Lemma hash_panics_iff_unique_witness :
  (exists msg, Location.hash (Location.unique "1"%string) = Panics msg) /\
  (exists h, Location.hash (Location.shared "1"%string) = Returns h) /\
  (exists h, Location.atom_hash (Location.atom_of hasher0 (Location.token Byte.x00 "1"%string))
             = Returns h).
Proof.
  destruct hash_panics_iff_unique as (H1 & H2 & _ & H4).
  split; [apply H1; reflexivity|].
  split; [apply H2; discriminate|].
  apply H4; discriminate.
Defined.

Definition stream_setup : Texture.TextureSetup :=
  Texture.mkTextureSetup (Location.shared "atlas.png"%string)
    (Texture.mkTextureParams Texture.U8U8U8U8 Texture.Clamp Texture.Linear
       Texture.Stream false (4, 4)) None.

(** C7 at a concrete input: a shared location with a [Stream] hint. *)
Lemma validate_spec_witness :
  Texture.validate stream_setup = Err Texture.CreateMutableSharedObject.
Proof.
  apply (proj2 (proj1 (validate_spec stream_setup))).
  split; [reflexivity | discriminate].
Defined.

(** C10 at a concrete input. *)
Lemma unique_comparison_is_false_witness :
  Location.atom_eq (Location.atom_of hasher0 (Location.unique "1"%string))
                   (Location.atom_of hasher0 (Location.shared "1"%string)) = Returns false /\
  Location.atom_eq (Location.atom_of hasher0 (Location.shared "1"%string))
                   (Location.atom_of hasher0 (Location.unique "1"%string)) = Returns false.
Proof.
  apply (proj2 unique_comparison_is_false). reflexivity.
Defined.

End Checks.

(** * Further properties *)

(** ** Equality and hashing of locations *)
Module LocationLaws.

Import Location.

Lemma signature_eqb_eq (a b : Signature) : signature_eqb a b = true <-> a = b.
Proof.
  destruct a as [| |x], b as [| |y]; simpl; split; intro H;
    try discriminate; try reflexivity.
  - apply Byte.byte_dec_bl in H; subst; reflexivity.
  - inversion H; subst; apply Byte.byte_dec_lb; reflexivity.
Qed.

Lemma signature_eqb_sym (a b : Signature) : signature_eqb a b = signature_eqb b a.
Proof.
  apply Bool.eq_iff_eq_true. rewrite !signature_eqb_eq. split; intros; subst; reflexivity.
Qed.

Lemma byte_eqb_sym (x y : Byte.byte) : Byte.eqb x y = Byte.eqb y x.
Proof. exact (signature_eqb_sym (TokenShared x) (TokenShared y)). Qed.

Lemma path_eq_sym (p q : Path.t) : Path.eq p q = Path.eq q p.
Proof.
  apply Bool.eq_iff_eq_true. rewrite !path_eq_components. split; intros; congruence.
Qed.

Lemma path_eq_trans (p q r : Path.t) :
  Path.eq p q = true -> Path.eq q r = true -> Path.eq p r = true.
Proof. rewrite !path_eq_components. congruence. Qed.

Lemma location_eq_true (a b : Location) :
  Location.eq a b = Returns true <->
  is_shared a = true /\ code a = code b /\ Path.eq (location a) (location b) = true.
Proof.
  unfold Location.eq, is_shared.
  destruct (signature_is_shared (code a)); split.
  - intro H; injection H as H1.
    apply andb_true_iff in H1 as [H1 H2]. apply signature_eqb_eq in H1. repeat split; auto.
  - intros (_ & H1 & H2). rewrite H1, signature_eqb_refl, H2. reflexivity.
  - discriminate.
  - intros (H & _); discriminate.
Qed.

Lemma atom_eq_true (a b : LocationAtom) :
  atom_eq a b = Returns true <->
  atom_is_shared a = true /\ acode a = acode b /\ alocation a = alocation b.
Proof.
  unfold atom_eq, atom_is_shared.
  destruct (signature_is_shared (acode a)); split.
  - intro H; injection H as H1.
    apply andb_true_iff in H1 as [H1 H2]. apply signature_eqb_eq in H1.
    apply Z.eqb_eq in H2. repeat split; auto.
  - intros (_ & H1 & H2). rewrite H1, signature_eqb_refl, H2, Z.eqb_refl. reflexivity.
  - discriminate.
  - intros (H & _); discriminate.
Qed.

(** [impl PartialEq for Location] and [for LocationAtom] are symmetric and
    transitive, and reflexive exactly on shared values: a [Unique] location
    or atom is unequal to itself although both types implement [Eq]. *)
Theorem location_eq_laws :
  (forall a : Location, Location.eq a a = Returns (is_shared a)) /\
  (forall a b : Location, Location.eq a b = Location.eq b a) /\
  (forall a b c : Location, Location.eq a b = Returns true -> Location.eq b c = Returns true ->
      Location.eq a c = Returns true) /\
  (forall x : LocationAtom, atom_eq x x = Returns (atom_is_shared x)) /\
  (forall x y : LocationAtom, atom_eq x y = atom_eq y x) /\
  (forall x y z : LocationAtom, atom_eq x y = Returns true -> atom_eq y z = Returns true ->
      atom_eq x z = Returns true).
Proof.
  split; [|split; [|split; [|split; [|split]]]].
  - intros [c p]. unfold Location.eq, is_shared; simpl.
    destruct (signature_is_shared c); [|reflexivity].
    rewrite signature_eqb_refl, path_eq_refl. reflexivity.
  - intros [ca pa] [cb pb]. unfold Location.eq; simpl.
    destruct ca as [| |x], cb as [| |y]; simpl; try reflexivity.
    + rewrite path_eq_sym; reflexivity.
    + rewrite byte_eqb_sym.
      rewrite path_eq_sym; reflexivity.
  - intros a b c Hab Hbc.
    apply location_eq_true in Hab as (Ha & Hab & Pab).
    apply location_eq_true in Hbc as (_ & Hbc & Pbc).
    apply location_eq_true. split; [exact Ha|]. split; [congruence|].
    eapply path_eq_trans; eassumption.
  - intros [c v]. unfold atom_eq, atom_is_shared; simpl.
    destruct (signature_is_shared c); [|reflexivity].
    rewrite signature_eqb_refl, Z.eqb_refl. reflexivity.
  - intros [ca va] [cb vb]. unfold atom_eq; simpl.
    destruct ca as [| |x], cb as [| |y]; simpl; try reflexivity.
    + rewrite Z.eqb_sym; reflexivity.
    + rewrite byte_eqb_sym.
      rewrite Z.eqb_sym; reflexivity.
  - intros x y z Hxy Hyz.
    apply atom_eq_true in Hxy as (Hx & Hxy & Vxy).
    apply atom_eq_true in Hyz as (_ & Hyz & Vyz).
    apply atom_eq_true. split; [exact Hx|]. split; congruence.
Qed.

(** The [Hash] implementations agree with [PartialEq]: two locations, or two
    atoms, that compare equal both hash, and feed the same values to the
    hasher. *)
Theorem eq_locations_hash_alike :
  (forall a b : Location, Location.eq a b = Returns true ->
      exists h, Location.hash a = Returns h /\ Location.hash b = Returns h) /\
  (forall x y : LocationAtom, atom_eq x y = Returns true ->
      exists h, atom_hash x = Returns h /\ atom_hash y = Returns h).
Proof.
  split.
  - intros [ca pa] [cb pb] H.
    apply location_eq_true in H as (Hs & Hc & Hp); simpl in *; subst cb.
    apply path_eq_components in Hp. unfold is_shared in Hs; simpl in Hs.
    unfold Location.hash, path_hash; simpl. rewrite Hs, Hp. eauto.
  - intros [ca va] [cb vb] H.
    apply atom_eq_true in H as (Hs & Hc & Hv); simpl in *; subst cb vb.
    unfold atom_is_shared in Hs; simpl in Hs.
    unfold atom_hash; simpl. rewrite Hs. eauto.
Qed.

(** The projection [Location -> LocationAtom] ([From] and [Location::hash])
    keeps [is_shared] and maps equal locations to equal atoms, whatever the
    hasher. *)
Theorem atom_of_respects_eq :
  (forall (hasher : list HashInput -> Z) (l : Location),
      atom_is_shared (atom_of hasher l) = is_shared l) /\
  (forall (hasher : list HashInput -> Z) (a b : Location), Location.eq a b = Returns true ->
      atom_eq (atom_of hasher a) (atom_of hasher b) = Returns true).
Proof.
  split.
  - intros hasher l; reflexivity.
  - intros hasher [ca pa] [cb pb] H.
    apply location_eq_true in H as (Hs & Hc & Hp); simpl in *; subst cb.
    apply path_eq_components in Hp.
    apply atom_eq_true. unfold atom_of, path_hash, atom_is_shared; simpl.
    rewrite Hp. auto.
Qed.

End LocationLaws.

(** ** Texture formats *)
Module TextureFormats.

Import Texture.

(** [TextureFormat::components] and [TextureFormat::size] agree with the
    layout each variant names: the number of components is the number of
    channels in the name, between 1 and 4, and [size] is the sum of the
    channel bit widths divided by 8, so a pixel is at least one byte. *)
Theorem format_size_matches_layout :
  forall f : TextureFormat,
    Z.of_nat (length (component_bits f)) = components f /\
    8 * size f = fold_right Z.add 0 (component_bits f) /\
    1 <= components f <= 4 /\ 1 <= size f.
Proof.
  intro f; destruct f; simpl; lia.
Qed.

End TextureFormats.

(** ** Frame lifecycle *)
Module FrameLifecycle.

Import Frame.

Section Lifecycle.

Context {SurfaceParams ShaderParams TextureParams RenderTextureParams MeshParams
         TextureData MeshData SurfaceScissor SurfaceViewport MeshIndex Error VS : Type}.

Local Abbreviation Frame := (@Frame SurfaceParams ShaderParams TextureParams
  RenderTextureParams MeshParams TextureData MeshData SurfaceScissor SurfaceViewport MeshIndex).
Local Abbreviation VisitorCall := (@VisitorCall SurfaceParams ShaderParams TextureParams
  RenderTextureParams MeshParams TextureData MeshData SurfaceScissor SurfaceViewport MeshIndex).

Variable visit : VS -> VisitorCall -> VS * Result Z Error.

Lemma dispatch_no_commands (f : Frame) s dims :
  cmds f = [] ->
  run_dispatch visit f s dims =
  match visit s VAdvance with
  | (s1, Err e) => (mkDState f s1 [VAdvance], Err e)
  | (s1, Ok _) =>
      match visit s1 VFlush with
      | (s2, Err e) => (mkDState f s2 [VAdvance; VFlush], Err e)
      | (s2, Ok _) => (mkDState f s2 [VAdvance; VFlush], Ok (0, 0))
      end
  end.
Proof.
  intro H. rewrite FrameProofs.dispatch_unfold.
  destruct f as [cs b]; simpl in H; subst cs; simpl.
  destruct (visit s VAdvance) as [s1 [n|e]]; [|reflexivity].
  simpl. unfold ret; simpl.
  destruct (visit s1 VFlush) as [s2 [n2|e2]]; reflexivity.
Qed.

Lemma dispatch_ok_frame (f : Frame) s dims st' p :
  run_dispatch visit f s dims = (st', Ok p) -> frame st' = mkFrame [] (bufs f).
Proof.
  rewrite FrameProofs.dispatch_unfold.
  destruct (visit s VAdvance) as [s1 [n|e]]; [|discriminate].
  destruct (run_loop visit (bufs f) dims 0 0 (cmds f)
              (mkDState (mkFrame [] (bufs f)) s1 [VAdvance])) as [st1 r1] eqn:El.
  destruct (run_calls visit s1 (map (call_of_command (bufs f) dims) (cmds f)))
    as [[s2 made] err] eqn:Ec.
  destruct (FrameProofs.run_loop_calls _ _ _ _ _ _ _ _ _ _ _ _ El Ec) as (Hf & _).
  simpl in Hf.
  destruct r1 as [q|e]; [|discriminate].
  destruct (visit (vstate st1) VFlush) as [s3 [n3|e3]]; [|discriminate].
  intro H; inversion H; subst; simpl. rewrite Hf; reflexivity.
Qed.

(** A frame without commands, as [Frame::with_capacity] and [Frame::clear]
    leave it, dispatches as [advance] then [flush] only: it draws nothing,
    returns [(0, 0)] when both answer [Ok], stops after a failing
    [advance], and leaves the frame as it was. *)
Theorem dispatch_empty_frame :
  (forall n : nat, cmds (with_capacity n : Frame) = [] /\
                   bytes (bufs (with_capacity n : Frame)) = []) /\
  (forall g : Frame, cmds (clear g) = []) /\
  (forall (f : Frame) s dims, cmds f = [] ->
     run_dispatch visit f s dims =
     match visit s VAdvance with
     | (s1, Err e) => (mkDState f s1 [VAdvance], Err e)
     | (s1, Ok _) =>
         match visit s1 VFlush with
         | (s2, Err e) => (mkDState f s2 [VAdvance; VFlush], Err e)
         | (s2, Ok _) => (mkDState f s2 [VAdvance; VFlush], Ok (0, 0))
         end
     end).
Proof.
  split; [|split].
  - intro n; split; reflexivity.
  - intro g; reflexivity.
  - intros f s dims H. apply dispatch_no_commands; exact H.
Qed.

(** Commands are replayed once: after a successful [dispatch] the frame has
    no commands and the same arena, so dispatching it again calls only
    [advance] and [flush] (or [advance] alone if it fails), counts
    [(0, 0)] and changes the frame no further. *)
Theorem dispatch_replays_once (f : Frame) s dims st' p :
  run_dispatch visit f s dims = (st', Ok p) ->
  frame st' = mkFrame [] (bufs f) /\
  (forall s2 dims2 st2 r2, run_dispatch visit (frame st') s2 dims2 = (st2, r2) ->
     frame st2 = frame st' /\
     (trace st2 = [VAdvance] \/ trace st2 = [VAdvance; VFlush]) /\
     (forall q, r2 = Ok q -> q = (0, 0))).
Proof.
  intro H. pose proof (dispatch_ok_frame _ _ _ _ _ H) as Hf.
  split; [exact Hf|].
  intros s2 dims2 st2 r2 H2.
  rewrite dispatch_no_commands in H2 by (rewrite Hf; reflexivity).
  destruct (visit s2 VAdvance) as [s3 [n|e]].
  - destruct (visit s3 VFlush) as [s4 [n4|e4]];
      inversion H2; subst; simpl; (split; [reflexivity | split; [auto|]]);
      intros q Hq; congruence.
  - inversion H2; subst; simpl; (split; [reflexivity | split; [auto|]]);
      intros q Hq; discriminate.
Qed.

End Lifecycle.

End FrameLifecycle.

(** ** Scene resources *)
Module SceneResources.

Import Location Registry.

(** Every record's handle has an index below [next_index]. *)
Definition wf {T} (r : Registry T) : Prop :=
  Forall (fun he : Handle * Entry T => (index (fst he) < next_index r)%nat) (records r).

Section Resources.

Variable hasher : list HashInput -> Z.

Lemma handle_eqb_eq (a b : Handle) : handle_eqb a b = true <-> a = b.
Proof.
  destruct a as [ia va], b as [ib vb]; unfold handle_eqb; simpl.
  rewrite andb_true_iff, !Nat.eqb_eq. split.
  - intros [-> ->]; reflexivity.
  - intro H; inversion H; auto.
Qed.

Lemma find_entry_filter_none {T} (h : Handle) (rs : list (Handle * Entry T)) :
  find_entry h (filter (fun he => negb (handle_eqb (fst he) h)) rs) = None.
Proof.
  induction rs as [|[h' e] rs IH]; simpl; [reflexivity|].
  destruct (handle_eqb h' h) eqn:E; simpl; [exact IH|]. rewrite E. exact IH.
Qed.

Lemma find_atom_filter_none (a : LocationAtom) (p : LocationAtom * Handle -> bool)
    (m : list (LocationAtom * Handle)) :
  find_atom a m = None -> find_atom a (filter p m) = None.
Proof.
  induction m as [|[k h] m IH]; simpl; [auto|].
  destruct (outcome_true (atom_eq k a)) eqn:E; [discriminate|]. intro H.
  destruct (p (k, h)); simpl; [rewrite E|]; auto.
Qed.

Context {ShaderSetup ShaderParams Links Error Video : Type}.
Variable shader_params : ShaderSetup -> ShaderParams.
Variable create_shader : Video -> ShaderSetup -> Video * Result Handle Error.

(** A pipeline created for a location without a match gets a handle that
    no record of the registry had, holding the new shader, with one
    reference; a shared location now finds it through [lookup_pipeline].
    One [delete_pipeline] of that handle then makes it invalid and removes
    the location's match, so the next [create_pipeline] for the location
    creates a new shader. *)
Theorem pipeline_create_then_delete
    (scene : Scene (ShaderParams := ShaderParams) (Links := Links) (Video := Video))
    (setup : PipelineSetup (ShaderSetup := ShaderSetup) (Links := Links)) video' sh :
  wf (pipelines scene) ->
  lookup_pipeline hasher scene (setup_location setup) = None ->
  create_shader (video scene) (setup_shader setup) = (video', Ok sh) ->
  exists h scene1,
    create_pipeline hasher shader_params create_shader scene setup = (scene1, Ok h) /\
    (forall h' e, In (h', e) (records (pipelines scene)) -> h' <> h) /\
    wf (pipelines scene1) /\
    video scene1 = video' /\
    get (pipelines scene1) h
      = Some (mkPipelineParams sh (shader_params (setup_shader setup)) (setup_links setup)) /\
    refcount (pipelines scene1) h = Some 1%nat /\
    lookup_pipeline hasher scene1 (setup_location setup)
      = (if is_shared (setup_location setup) then Some h else None) /\
    get (pipelines (delete_pipeline scene1 h)) h = None /\
    lookup_pipeline hasher (delete_pipeline scene1 h) (setup_location setup) = None.
Proof.
  intros Hwf Hl Hc.
  unfold create_pipeline. rewrite Hl, Hc.
  unfold lookup_pipeline in Hl. unfold create. rewrite Hl.
  set (h := mkHandle (next_index (pipelines scene)) 1).
  assert (Hfresh : forall h' e, In (h', e) (records (pipelines scene)) -> h' <> h).
  { intros h' e Hin Heq. subst h'.
    unfold wf in Hwf. rewrite Forall_forall in Hwf.
    specialize (Hwf _ Hin). simpl in Hwf. lia. }
  assert (Hwf' : forall e, Forall (fun he : Handle * Entry PipelineParams =>
                                     (index (fst he) < S (next_index (pipelines scene)))%nat)
                                  ((h, e) :: records (pipelines scene))).
  { intro e. constructor; [simpl; lia|].
    eapply Forall_impl; [|exact Hwf]. intros [h' e'] Hi; simpl in *; lia. }
  destruct (is_shared (setup_location setup)) eqn:Hs.
  - eexists h, _. split; [reflexivity|]. split; [exact Hfresh|]. split; [apply Hwf'|].
    unfold get, refcount, lookup_pipeline, delete_pipeline, dec_rc, lookup; simpl.
    rewrite RegistryProofs.handle_eqb_refl, Hs; simpl.
    unfold lookup in Hl; rewrite Hs in Hl.
    rewrite (RegistryProofs.atom_eq_refl_shared (atom_of hasher (setup_location setup)) Hs).
    split; [reflexivity|]. split; [reflexivity|]. split; [reflexivity|].
    split; [reflexivity|].
    rewrite ?RegistryProofs.handle_eqb_refl; simpl.
    rewrite find_entry_filter_none. split; [reflexivity|].
    apply find_atom_filter_none; exact Hl.
  - eexists h, _. split; [reflexivity|]. split; [exact Hfresh|]. split; [apply Hwf'|].
    unfold get, refcount, lookup_pipeline, delete_pipeline, dec_rc, lookup; simpl.
    rewrite RegistryProofs.handle_eqb_refl, Hs; simpl.
    split; [reflexivity|]. split; [reflexivity|]. split; [reflexivity|].
    split; [reflexivity|].
    rewrite ?RegistryProofs.handle_eqb_refl; simpl.
    rewrite find_entry_filter_none. split; reflexivity.
Qed.

Context {Variables MaterialParams : Type}.
Variable material_new : Handle -> Variables -> ShaderParams -> MaterialParams.

(** [Scene::create_material] fails with [PipelineHandleInvalid] and leaves
    the materials alone when the pipeline handle has no record.  Otherwise
    it stores a new material built from the pipeline's shader parameters
    under a handle that no earlier material has, with one reference, adds no
    lookup key (materials are never shared) and leaves every other material
    as it was. *)
Theorem create_material_fresh
    (pipelines : Registry (PipelineParams (ShaderParams := ShaderParams) (Links := Links)))
    (materials : Registry MaterialParams) (setup : MaterialSetup (Variables := Variables)) :
  (get pipelines (setup_pipeline setup) = None ->
     create_material hasher material_new pipelines materials setup
       = (materials, Err (PipelineHandleInvalid (setup_pipeline setup)))) /\
  (forall po, get pipelines (setup_pipeline setup) = Some po -> wf materials ->
     exists h materials',
       create_material hasher material_new pipelines materials setup = (materials', Ok h) /\
       (forall h' e, In (h', e) (records materials) -> h' <> h) /\
       get materials' h = Some (material_new (setup_pipeline setup) (setup_variables setup)
                                             (pipeline_shader_params po)) /\
       refcount materials' h = Some 1%nat /\
       lookup_map materials' = lookup_map materials /\
       (forall h', h' <> h -> get materials' h' = get materials h') /\
       wf materials').
Proof.
  split.
  - intro H. unfold create_material. rewrite H. reflexivity.
  - intros po Hp Hwf. unfold create_material. rewrite Hp.
    unfold create, lookup; simpl.
    set (h := mkHandle (next_index materials) 1).
    eexists h, _. split; [reflexivity|].
    split; [|split; [|split; [|split; [|split]]]].
    + intros h' e Hin Heq. subst h'.
      unfold wf in Hwf. rewrite Forall_forall in Hwf.
      specialize (Hwf _ Hin). simpl in Hwf. lia.
    + unfold get; simpl. rewrite RegistryProofs.handle_eqb_refl. reflexivity.
    + unfold refcount; simpl. rewrite RegistryProofs.handle_eqb_refl. reflexivity.
    + reflexivity.
    + intros h' Hne. unfold get; simpl.
      destruct (handle_eqb h h') eqn:E; [|reflexivity].
      apply handle_eqb_eq in E. congruence.
    + unfold wf; simpl. constructor; [simpl; lia|].
      eapply Forall_impl; [|exact Hwf]. intros [h' e] Hi; simpl in *; lia.
Qed.

End Resources.

End SceneResources.

(** ** Application *)
Module ApplicationProps.

Import Application.

Section Run.

Context {InputEvent OtherApplicationEvent OtherEvent GraphicsError : Type}.

Local Abbreviation Event := (@Event InputEvent OtherApplicationEvent OtherEvent).
Local Abbreviation Effect := (@Effect InputEvent OtherApplicationEvent OtherEvent).
Local Abbreviation Tick := (@Tick InputEvent OtherApplicationEvent OtherEvent GraphicsError).

Lemma poll_events_no_closed (evs : list Event) :
  ~ In (Application Closed) evs -> snd (poll_events evs) = false.
Proof.
  induction evs as [|e evs IH]; simpl; intro H; [reflexivity|].
  destruct e as [[|v]|v|v];
    [exfalso; apply H; left; reflexivity| | |];
    destruct (poll_events evs) as [effs c] eqn:E; simpl in *;
    apply IH; intro Hin; apply H; right; exact Hin.
Qed.

Lemma poll_events_closed (pre post : list Event) :
  ~ In (Application Closed) pre ->
  poll_events (pre ++ Application Closed :: post) = (fst (poll_events pre), true).
Proof.
  induction pre as [|e pre IH]; simpl; intro H; [reflexivity|].
  assert (Hpre : ~ In (Application Closed) pre) by (intro Hin; apply H; right; exact Hin).
  destruct e as [[|v]|v|v];
    [exfalso; apply H; left; reflexivity| | |];
    rewrite (IH Hpre); destruct (poll_events pre); reflexivity.
Qed.

Lemma poll_events_no_frames (evs : list Event) :
  ~ In EngineFrame (fst (poll_events evs)) /\ ~ In GraphicsFrame (fst (poll_events evs)).
Proof.
  induction evs as [|e evs IH]; simpl; [tauto|].
  destruct e as [[|v]|v|v]; simpl; [tauto| | |];
    destruct (poll_events evs) as [effs c]; simpl in *;
    (split; intros [Hx|Hx]; [discriminate | tauto | discriminate | tauto]).
Qed.

(** A [Closed] event ends [Application::run] in the iteration that polls
    it: the events before it in the batch are handled in order, the events
    after it are dropped unseen, neither the engine nor the graphics runs a
    frame in that iteration, and no later iteration happens. *)
Theorem run_stops_at_closed (t : Tick) (rest : list Tick) (pre post : list Event) :
  closure_result t = true ->
  polled t = pre ++ Application Closed :: post ->
  ~ In (Application Closed) pre ->
  run (t :: rest) = (InputFrame :: fst (poll_events pre), WindowClosed) /\
  ~ In EngineFrame (fst (run (t :: rest))) /\ ~ In GraphicsFrame (fst (run (t :: rest))).
Proof.
  intros Hc Hp Hpre.
  assert (Hrun : run (t :: rest) = (InputFrame :: fst (poll_events pre), WindowClosed)).
  { simpl. rewrite Hc, Hp, (poll_events_closed _ _ Hpre). reflexivity. }
  rewrite Hrun. simpl. destruct (poll_events_no_frames pre) as [H1 H2].
  split; [reflexivity|]. split; intros [Hx|Hx]; try discriminate; tauto.
Qed.

(** A failing [Graphics::run_one_frame] panics through [unwrap] at the end
    of its iteration, after the events and the engine frame: no later
    iteration happens. *)
Theorem run_graphics_error_panics (t : Tick) (rest : list Tick) (e : GraphicsError) :
  closure_result t = true ->
  ~ In (Application Closed) (polled t) ->
  graphics_result t = Err e ->
  run (t :: rest)
    = (InputFrame :: fst (poll_events (polled t)) ++ [EngineFrame; GraphicsFrame],
       GraphicsPanic e).
Proof.
  intros Hc Hn Hg. pose proof (poll_events_no_closed _ Hn) as Hs.
  simpl. rewrite Hc.
  destruct (poll_events (polled t)) as [effs c] eqn:E; simpl in Hs; subst c.
  rewrite Hg. reflexivity.
Qed.

End Run.

End ApplicationProps.

(** ** Concrete instances of the further properties *)
Module Witnesses.

Import Frame Scenarios.

(** Paths equal up to separators, and atoms of one-component paths under
    the length hasher. *)
Lemma location_eq_laws_witness :
  Location.eq (Location.shared "a/b"%string) (Location.shared "a//b"%string) = Returns true /\
  Location.atom_eq (Location.atom_of hasher0 (Location.shared "x"%string))
                   (Location.atom_of hasher0 (Location.shared "y"%string)) = Returns true.
Proof.
  destruct LocationLaws.location_eq_laws as (_ & _ & H3 & _ & _ & H6). split.
  - apply (H3 _ (Location.shared "a/b/"%string) _); reflexivity.
  - apply (H6 _ (Location.atom_of hasher0 (Location.shared "z"%string)) _); reflexivity.
Defined.

Lemma eq_locations_hash_alike_witness :
  (exists h, Location.hash (Location.shared "a/b"%string) = Returns h /\
             Location.hash (Location.shared "a/b/"%string) = Returns h) /\
  (exists h, Location.atom_hash (Location.atom_of hasher0 (Location.shared "x"%string)) = Returns h /\
             Location.atom_hash (Location.atom_of hasher0 (Location.shared "y"%string)) = Returns h).
Proof.
  destruct LocationLaws.eq_locations_hash_alike as [H1 H2]. split.
  - apply H1; reflexivity.
  - apply H2; reflexivity.
Defined.

Lemma atom_of_respects_eq_witness :
  Location.atom_eq (Location.atom_of hasher0 (Location.shared "a/b"%string))
                   (Location.atom_of hasher0 (Location.shared "a/./b"%string)) = Returns true.
Proof. apply (proj2 LocationLaws.atom_of_respects_eq). reflexivity. Defined.

(** The cleared texture frame dispatches as [advance] and [flush]. *)
Lemma dispatch_empty_frame_witness :
  run_dispatch (counting_visitor 5) (clear texture_frame) 0%nat dims0
  = (mkDState (clear texture_frame) 2%nat [VAdvance; VFlush], Ok (0, 0)).
Proof.
  destruct (FrameLifecycle.dispatch_empty_frame (counting_visitor 5)) as (_ & _ & H).
  rewrite (H (clear texture_frame) 0%nat dims0 eq_refl). reflexivity.
Defined.

(** Two draws, then nothing left to replay. *)
Lemma dispatch_replays_once_witness :
  frame (fst (run_dispatch (counting_visitor 10) draw_frame 0%nat dims0))
  = mkFrame [] (bufs draw_frame).
Proof.
  exact (proj1 (FrameLifecycle.dispatch_replays_once (counting_visitor 10) draw_frame 0%nat dims0
                  (fst (run_dispatch (counting_visitor 10) draw_frame 0%nat dims0)) (2, 0)
                  ltac:(vm_compute; reflexivity))).
Defined.

Definition empty_scene : Registry.Scene (ShaderParams := unit) (Links := unit) (Video := unit) :=
  Registry.mkScene tt Registry.new.

(** A pipeline for the shared path ["p"] in an empty scene, then deleted. *)
Lemma pipeline_create_then_delete_witness :
  exists h scene1,
    Registry.create_pipeline hasher0 (fun _ : unit => tt) (fun v _ => (v, @Ok Handle unit h1))
      empty_scene Checks.pipeline_setup = (scene1, Ok h) /\
    Registry.get (Registry.pipelines (Registry.delete_pipeline scene1 h)) h = None.
Proof.
  destruct (SceneResources.pipeline_create_then_delete hasher0 (fun _ : unit => tt)
              (fun v _ => (v, @Ok Handle unit h1)) empty_scene Checks.pipeline_setup tt h1
              (Forall_nil _) eq_refl eq_refl)
    as (h & s1 & H1 & _ & _ & _ & _ & _ & _ & H6 & _).
  exists h, s1. split; assumption.
Defined.

Definition material_pipelines : Registry.Registry (Registry.PipelineParams (ShaderParams := unit) (Links := unit)) :=
  Registry.pipelines Checks.pipeline_scene.

(** A material on the pipeline [h0] of [pipeline_scene]. *)
Lemma create_material_fresh_witness :
  exists h materials',
    Registry.create_material hasher0 (fun _ _ _ => tt) material_pipelines
      (Registry.new (T := unit)) (Registry.mkMaterialSetup h0 tt) = (materials', Ok h) /\
    Registry.get materials' h = Some tt.
Proof.
  destruct (proj2 (SceneResources.create_material_fresh hasher0 (fun _ _ _ => tt)
                     material_pipelines (Registry.new (T := unit)) (Registry.mkMaterialSetup h0 tt))
              (Registry.mkPipelineParams h0 tt tt) eq_refl (Forall_nil _))
    as (h & m' & H1 & _ & H3 & _).
  exists h, m'. split; assumption.
Defined.

Definition tick_closed : Application.Tick (InputEvent := nat) (OtherApplicationEvent := unit)
                                          (OtherEvent := unit) (GraphicsError := string) :=
  Application.mkTick true
    [Application.InputDevice 1%nat; Application.Application Application.Closed;
     Application.InputDevice 2%nat] (Ok tt).

Definition tick_lost : Application.Tick (InputEvent := nat) (OtherApplicationEvent := unit)
                                        (OtherEvent := unit) (GraphicsError := string) :=
  Application.mkTick true [Application.InputDevice 1%nat] (Err "lost"%string).

(** The event after [Closed] is not processed. *)
Lemma run_stops_at_closed_witness :
  Application.run [tick_closed; tick_lost]
  = ([Application.InputFrame; Application.Process 1%nat], Application.WindowClosed).
Proof.
  exact (proj1 (ApplicationProps.run_stops_at_closed tick_closed [tick_lost]
                  [Application.InputDevice 1%nat] [Application.InputDevice 2%nat]
                  eq_refl eq_refl ltac:(simpl; intros [H|[]]; discriminate))).
Defined.

(** The second tick never runs. *)
Lemma run_graphics_error_panics_witness :
  Application.run [tick_lost; tick_closed]
  = ([Application.InputFrame; Application.Process 1%nat; Application.EngineFrame;
      Application.GraphicsFrame], Application.GraphicsPanic "lost"%string).
Proof.
  exact (ApplicationProps.run_graphics_error_panics tick_lost [tick_closed] "lost"%string
           eq_refl ltac:(simpl; intros [H|[]]; discriminate) eq_refl).
Defined.

End Witnesses.
